(** * Microchip XEC GPIO driver (drivers/gpio/gpio_mchp_xec.c)

    A shallow embedding of the driver's pin configuration, interrupt
    configuration, bulk port operations and interrupt service routine,
    together with the properties of the order and the contents of their
    register accesses.

    The driver works on memory-mapped 32-bit registers.  A register word is
    a [Z]; [|], [&] and [^] of two words are words again, only [~] and [<<]
    need their truncation to 32 bits written out.  The effects of the driver
    are register accesses: they are threaded through a state monad over a
    register file that also records every write, barrier and callback
    invocation in program order. *)

From Stdlib Require Import ZArith List Bool Lia.
Import ListNotations.
Local Open Scope Z_scope.

(** ** 32-bit words *)

Definition word32 (x : Z) : Prop := 0 <= x < 2 ^ 32.

(** Truncation of a C [uint32_t] result. *)
Definition wrap32 (x : Z) : Z := Z.land x (Z.ones 32).

(** [~x] on a [uint32_t]. *)
Definition not32 (x : Z) : Z := wrap32 (Z.lnot x).

(** [BIT(n)], that is [1UL << n] with a 32-bit [unsigned long].  Pins are
    numbered 0 to 31; for a larger count, where C leaves the shift
    undefined, no bit is left in the word, as with the shifter of the
    target. *)
Definition BIT (n : Z) : Z := wrap32 (Z.shiftl 1 n).

(** [(x & m) != 0U] *)
Definition is_set (x m : Z) : bool := negb (Z.land x m =? 0).

(** Masks that share no bit, pairwise. *)
Fixpoint pairwise_disjoint (ms : list Z) : Prop :=
  match ms with
  | [] => True
  | m :: rest => Forall (fun m' => Z.land m m' = 0) rest /\ pairwise_disjoint rest
  end.

(** ** The headers the driver is compiled against

    [errno.h], [drivers/gpio.h] and the SoC's HAL ([soc.h]) are not part of
    the driver file.  The macros and enumerators the driver and its callers
    take from them are the fields of this interface, under the names they
    have in the C code. *)

Class XecHal : Type := {
  (* errno.h *)
  EINVAL : Z;
  ENOTSUP : Z;
  (* drivers/gpio.h: pin configuration flags *)
  GPIO_SINGLE_ENDED : Z;
  GPIO_LINE_OPEN_DRAIN : Z;
  GPIO_OPEN_DRAIN : Z;
  GPIO_PULL_UP : Z;
  GPIO_PULL_DOWN : Z;
  GPIO_OUTPUT : Z;
  GPIO_OUTPUT_INIT_LOW : Z;
  GPIO_OUTPUT_INIT_HIGH : Z;
  GPIO_DISCONNECTED : Z;
  GPIO_INT_ENABLE : Z;
  (* drivers/gpio.h: enum gpio_int_mode, enum gpio_int_trig *)
  GPIO_INT_MODE_DISABLED : Z;
  GPIO_INT_MODE_LEVEL : Z;
  GPIO_INT_MODE_EDGE : Z;
  GPIO_INT_TRIG_LOW : Z;
  GPIO_INT_TRIG_HIGH : Z;
  GPIO_INT_TRIG_BOTH : Z;
  (* soc.h: fields of a pin control register (PCR1) *)
  MCHP_GPIO_CTRL_DIR_MASK : Z;
  MCHP_GPIO_CTRL_DIR_INPUT : Z;
  MCHP_GPIO_CTRL_DIR_OUTPUT : Z;
  MCHP_GPIO_CTRL_INPAD_DIS_MASK : Z;
  MCHP_GPIO_CTRL_PWRG_MASK : Z;
  MCHP_GPIO_CTRL_PWRG_OFF : Z;
  MCHP_GPIO_CTRL_PUD_MASK : Z;
  MCHP_GPIO_CTRL_PUD_PU : Z;
  MCHP_GPIO_CTRL_PUD_PD : Z;
  MCHP_GPIO_CTRL_BUFT_MASK : Z;
  MCHP_GPIO_CTRL_BUFT_OPENDRAIN : Z;
  MCHP_GPIO_CTRL_BUFT_PUSHPULL : Z;
  MCHP_GPIO_CTRL_AOD_MASK : Z;
  MCHP_GPIO_CTRL_AOD_DIS : Z;
  MCHP_GPIO_CTRL_IDET_MASK : Z;
  MCHP_GPIO_CTRL_IDET_DISABLE : Z;
  MCHP_GPIO_CTRL_IDET_LVL_HI : Z;
  MCHP_GPIO_CTRL_IDET_LVL_LO : Z;
  MCHP_GPIO_CTRL_IDET_FEDGE : Z;
  MCHP_GPIO_CTRL_IDET_REDGE : Z;
  MCHP_GPIO_CTRL_IDET_BEDGE : Z;
  (* soc.h: the pins each port has *)
  MCHP_GPIO_PORT_A_BITMAP : Z;
  MCHP_GPIO_PORT_B_BITMAP : Z;
  MCHP_GPIO_PORT_C_BITMAP : Z;
  MCHP_GPIO_PORT_D_BITMAP : Z;
  MCHP_GPIO_PORT_E_BITMAP : Z;
  MCHP_GPIO_PORT_F_BITMAP : Z
}.

(** What the driver relies on in those headers: error numbers are positive,
    the fields of a control register are 32-bit masks that do not overlap,
    every encoding lies inside its field, and the encodings the driver tells
    apart are different. *)
Record hal_ok (H : XecHal) : Prop := {
  EINVAL_pos : 0 < EINVAL;
  ENOTSUP_pos : 0 < ENOTSUP;
  ctrl_masks_word32 :
    Forall word32
      [MCHP_GPIO_CTRL_DIR_MASK; MCHP_GPIO_CTRL_INPAD_DIS_MASK;
       MCHP_GPIO_CTRL_PWRG_MASK; MCHP_GPIO_CTRL_PUD_MASK;
       MCHP_GPIO_CTRL_BUFT_MASK; MCHP_GPIO_CTRL_AOD_MASK;
       MCHP_GPIO_CTRL_IDET_MASK];
  ctrl_masks_disjoint :
    pairwise_disjoint
      [MCHP_GPIO_CTRL_DIR_MASK; MCHP_GPIO_CTRL_INPAD_DIS_MASK;
       MCHP_GPIO_CTRL_PWRG_MASK; MCHP_GPIO_CTRL_PUD_MASK;
       MCHP_GPIO_CTRL_BUFT_MASK; MCHP_GPIO_CTRL_AOD_MASK;
       MCHP_GPIO_CTRL_IDET_MASK];
  DIR_INPUT_in : Z.land MCHP_GPIO_CTRL_DIR_INPUT MCHP_GPIO_CTRL_DIR_MASK = MCHP_GPIO_CTRL_DIR_INPUT;
  DIR_OUTPUT_in : Z.land MCHP_GPIO_CTRL_DIR_OUTPUT MCHP_GPIO_CTRL_DIR_MASK = MCHP_GPIO_CTRL_DIR_OUTPUT;
  PWRG_OFF_in : Z.land MCHP_GPIO_CTRL_PWRG_OFF MCHP_GPIO_CTRL_PWRG_MASK = MCHP_GPIO_CTRL_PWRG_OFF;
  PUD_PU_in : Z.land MCHP_GPIO_CTRL_PUD_PU MCHP_GPIO_CTRL_PUD_MASK = MCHP_GPIO_CTRL_PUD_PU;
  PUD_PD_in : Z.land MCHP_GPIO_CTRL_PUD_PD MCHP_GPIO_CTRL_PUD_MASK = MCHP_GPIO_CTRL_PUD_PD;
  BUFT_OPENDRAIN_in : Z.land MCHP_GPIO_CTRL_BUFT_OPENDRAIN MCHP_GPIO_CTRL_BUFT_MASK = MCHP_GPIO_CTRL_BUFT_OPENDRAIN;
  BUFT_PUSHPULL_in : Z.land MCHP_GPIO_CTRL_BUFT_PUSHPULL MCHP_GPIO_CTRL_BUFT_MASK = MCHP_GPIO_CTRL_BUFT_PUSHPULL;
  AOD_DIS_in : Z.land MCHP_GPIO_CTRL_AOD_DIS MCHP_GPIO_CTRL_AOD_MASK = MCHP_GPIO_CTRL_AOD_DIS;
  IDET_DISABLE_in : Z.land MCHP_GPIO_CTRL_IDET_DISABLE MCHP_GPIO_CTRL_IDET_MASK = MCHP_GPIO_CTRL_IDET_DISABLE;
  IDET_LVL_HI_in : Z.land MCHP_GPIO_CTRL_IDET_LVL_HI MCHP_GPIO_CTRL_IDET_MASK = MCHP_GPIO_CTRL_IDET_LVL_HI;
  IDET_LVL_LO_in : Z.land MCHP_GPIO_CTRL_IDET_LVL_LO MCHP_GPIO_CTRL_IDET_MASK = MCHP_GPIO_CTRL_IDET_LVL_LO;
  IDET_FEDGE_in : Z.land MCHP_GPIO_CTRL_IDET_FEDGE MCHP_GPIO_CTRL_IDET_MASK = MCHP_GPIO_CTRL_IDET_FEDGE;
  IDET_REDGE_in : Z.land MCHP_GPIO_CTRL_IDET_REDGE MCHP_GPIO_CTRL_IDET_MASK = MCHP_GPIO_CTRL_IDET_REDGE;
  IDET_BEDGE_in : Z.land MCHP_GPIO_CTRL_IDET_BEDGE MCHP_GPIO_CTRL_IDET_MASK = MCHP_GPIO_CTRL_IDET_BEDGE;
  PWRG_OFF_nonzero : MCHP_GPIO_CTRL_PWRG_OFF <> 0;
  IDET_DISABLE_not_default : MCHP_GPIO_CTRL_IDET_DISABLE <> MCHP_GPIO_CTRL_IDET_LVL_LO
}.

(** ** Registers, events and the register file *)

(** The registers the driver touches.  A control register is named by the
    word pointer [config->pcr1_base + pin]; the parallel input and output
    registers by the port number that [GPIO_IN_BASE] and [GPIO_OUT_BASE]
    add to their base; an aggregator register by the GIRQ id. *)
Inductive reg : Type :=
| PCR1 (ptr : Z)
| GPIO_PAROUT (port : Z)
| GPIO_PARIN (port : Z)
| GIRQ_ENSET (id : Z)
| GIRQ_ENCLR (id : Z)
| GIRQ_SRC (id : Z)
| GIRQ_RESULT (id : Z).

(** [struct gpio_callback]: the handler (a function pointer, here an
    identifier) and the pins it is interested in. *)
Record gpio_callback : Type := {
  handler : nat;
  pin_mask : Z
}.

(** What the driver does to the outside, in program order. *)
Inductive event : Type :=
| EvWrite (r : reg) (v : Z)               (* a store to a register *)
| EvDmb                                   (* __DMB() *)
| EvCall (cb : gpio_callback) (pins : Z). (* cb->handler(port, cb, pins) *)

Record hw : Type := {
  pcr1 : Z -> Z;       (* pin control registers, by word pointer *)
  parout : Z -> Z;     (* parallel output register of each port *)
  parin : Z -> Z;      (* parallel input register of each port *)
  girq_en : Z -> Z;    (* enable mask of each aggregator *)
  girq_src : Z -> Z;   (* latched source bits of each aggregator *)
  trace : list event   (* the events so far, oldest first *)
}.

Definition upd (f : Z -> Z) (k v : Z) : Z -> Z :=
  fun k' => if k' =? k then v else f k'.

Definition log (e : event) (s : hw) : hw :=
  {| pcr1 := pcr1 s; parout := parout s; parin := parin s;
     girq_en := girq_en s; girq_src := girq_src s;
     trace := trace s ++ [e] |}.

(** Modelled from the spec: the behaviour of the registers themselves, which
    is hardware and not driver code.  Control and output registers hold the
    word last stored; the input register is read-only; the aggregator has
    write-only enable-set and enable-clear registers (one bit per pin), a
    write-1-to-clear source register, and a read-only result register that
    is a snapshot of source & enable. *)
Definition load (r : reg) (s : hw) : Z :=
  match r with
  | PCR1 p => pcr1 s p
  | GPIO_PAROUT n => parout s n
  | GPIO_PARIN n => parin s n
  | GIRQ_ENSET id => girq_en s id
  | GIRQ_ENCLR id => girq_en s id
  | GIRQ_SRC id => girq_src s id
  | GIRQ_RESULT id => Z.land (girq_src s id) (girq_en s id)
  end.

(** Modelled from the spec: the effect of a store on the registers (see
    [load]); the store itself is recorded by [write]. *)
Definition store (r : reg) (v : Z) (s : hw) : hw :=
  match r with
  | PCR1 p =>
      {| pcr1 := upd (pcr1 s) p v; parout := parout s; parin := parin s;
         girq_en := girq_en s; girq_src := girq_src s; trace := trace s |}
  | GPIO_PAROUT n =>
      {| pcr1 := pcr1 s; parout := upd (parout s) n v; parin := parin s;
         girq_en := girq_en s; girq_src := girq_src s; trace := trace s |}
  | GPIO_PARIN _ => s
  | GIRQ_ENSET id =>
      {| pcr1 := pcr1 s; parout := parout s; parin := parin s;
         girq_en := upd (girq_en s) id (Z.lor (girq_en s id) v);
         girq_src := girq_src s; trace := trace s |}
  | GIRQ_ENCLR id =>
      {| pcr1 := pcr1 s; parout := parout s; parin := parin s;
         girq_en := upd (girq_en s) id (Z.land (girq_en s id) (not32 v));
         girq_src := girq_src s; trace := trace s |}
  | GIRQ_SRC id =>
      {| pcr1 := pcr1 s; parout := parout s; parin := parin s;
         girq_en := girq_en s;
         girq_src := upd (girq_src s) id (Z.land (girq_src s id) (not32 v));
         trace := trace s |}
  | GIRQ_RESULT _ => s
  end.

(** ** The monad of register accesses *)

Definition M (A : Type) : Type := hw -> A * hw.

Definition ret {A : Type} (a : A) : M A := fun s => (a, s).

Definition bind {A B : Type} (c : M A) (k : A -> M B) : M B :=
  fun s => let (a, s') := c s in k a s'.

Declare Scope hw_scope.
Delimit Scope hw_scope with hw.
Notation "x <- c ;; k" := (bind c (fun x => k))
  (at level 61, c at next level, right associativity) : hw_scope.
Notation "c ;; k" := (bind c (fun _ => k))
  (at level 61, right associativity) : hw_scope.
Local Open Scope hw_scope.

(** [*r] as an rvalue. *)
Definition read (r : reg) : M Z := fun s => (load r s, s).

(** [*r = v] *)
Definition write (r : reg) (v : Z) : M unit :=
  fun s => (tt, log (EvWrite r v) (store r v s)).

(** [__DMB()] *)
Definition dmb : M unit := fun s => (tt, log EvDmb s).

(** The call [cb->handler(port, cb, pins)].  What a handler does is its own
    business; the driver's part is the call and its arguments. *)
Definition call_handler (cb : gpio_callback) (pins : Z) : M unit :=
  fun s => (tt, log (EvCall cb pins) s).

(** The value a computation returns and the state it leaves. *)
Definition result {A : Type} (c : M A) (s : hw) : A := fst (c s).
Definition final {A : Type} (c : M A) (s : hw) : hw := snd (c s).

(** ** The driver *)

(** [struct gpio_xec_config] *)
Record gpio_xec_config : Type := {
  pcr1_base : Z;
  girq_id : Z;
  port_num : Z;
  flags : Z
}.

(** [struct gpio_xec_data]: the port's callback list. *)
Record gpio_xec_data : Type := {
  callbacks : list gpio_callback
}.

Section Driver.

Context {HAL : XecHal}.

Definition valid_ctrl_masks : list Z :=
  [MCHP_GPIO_PORT_A_BITMAP;
   MCHP_GPIO_PORT_B_BITMAP;
   MCHP_GPIO_PORT_C_BITMAP;
   MCHP_GPIO_PORT_D_BITMAP;
   MCHP_GPIO_PORT_E_BITMAP;
   MCHP_GPIO_PORT_F_BITMAP].

(** [valid_ctrl_masks[config->port_num]]; the port numbers of the six port
    instances index the table, any other index reads no pin. *)
Definition valid_ctrl_mask (config : gpio_xec_config) : Z :=
  nth (Z.to_nat (port_num config)) valid_ctrl_masks 0.

Definition GPIO_IN_BASE (config : gpio_xec_config) : reg :=
  GPIO_PARIN (port_num config).

Definition GPIO_OUT_BASE (config : gpio_xec_config) : reg :=
  GPIO_PAROUT (port_num config).

(** Modelled from the spec: the HAL macro [MCHP_GIRQ_SRC_CLR(id, pin)], which
    clears the pin's latched source bit by storing that bit to the
    aggregator's write-1-to-clear source register. *)
Definition MCHP_GIRQ_SRC_CLR (id pin : Z) : M unit :=
  write (GIRQ_SRC id) (BIT pin).

Definition gpio_xec_configure (config : gpio_xec_config) (pin flags : Z) : M Z :=
  let pcr1 := 0 in
  let mask := 0 in
  let gpio_out_reg := GPIO_OUT_BASE config in
  (* Validate pin number range in terms of current port *)
  if Z.land (valid_ctrl_mask config) (BIT pin) =? 0 then
    ret (- EINVAL)
  (* Don't support "open source" mode *)
  else if is_set flags GPIO_SINGLE_ENDED
          && (Z.land flags GPIO_LINE_OPEN_DRAIN =? 0) then
    ret (- ENOTSUP)
  else
    let mask := Z.lor mask MCHP_GPIO_CTRL_DIR_MASK in
    let mask := Z.lor mask MCHP_GPIO_CTRL_INPAD_DIS_MASK in
    let mask := Z.lor mask MCHP_GPIO_CTRL_PWRG_MASK in
    let pcr1 := Z.lor pcr1 MCHP_GPIO_CTRL_DIR_INPUT in
    (* pullup/pulldown *)
    let mask := Z.lor mask MCHP_GPIO_CTRL_PUD_MASK in
    let pcr1 :=
      if is_set flags GPIO_PULL_UP then Z.lor pcr1 MCHP_GPIO_CTRL_PUD_PU
      else if is_set flags GPIO_PULL_DOWN then Z.lor pcr1 MCHP_GPIO_CTRL_PUD_PD
      else pcr1 in
    (* Push-pull or open drain *)
    let mask := Z.lor mask MCHP_GPIO_CTRL_BUFT_MASK in
    let pcr1 :=
      if is_set flags GPIO_OPEN_DRAIN then Z.lor pcr1 MCHP_GPIO_CTRL_BUFT_OPENDRAIN
      else Z.lor pcr1 MCHP_GPIO_CTRL_BUFT_PUSHPULL in
    (* alternate output disable *)
    let mask := Z.lor mask MCHP_GPIO_CTRL_AOD_MASK in
    let pcr1 := Z.lor pcr1 MCHP_GPIO_CTRL_AOD_DIS in
    (* Make sure disconnected on first control register write *)
    let pcr1 :=
      if flags =? GPIO_DISCONNECTED then Z.lor pcr1 MCHP_GPIO_CTRL_PWRG_OFF
      else pcr1 in
    let current_pcr1 := PCR1 (pcr1_base config + pin) in
    v <- read current_pcr1 ;;
    write current_pcr1 (Z.lor (Z.land v (not32 mask)) pcr1) ;;
    if is_set flags GPIO_OUTPUT then
      (if is_set flags GPIO_OUTPUT_INIT_HIGH then
         o <- read gpio_out_reg ;;
         write gpio_out_reg (Z.lor o (BIT pin))
       else if is_set flags GPIO_OUTPUT_INIT_LOW then
         o <- read gpio_out_reg ;;
         write gpio_out_reg (Z.land o (not32 (BIT pin)))
       else ret tt) ;;
      let mask := MCHP_GPIO_CTRL_DIR_MASK in
      let pcr1 := MCHP_GPIO_CTRL_DIR_OUTPUT in
      v <- read current_pcr1 ;;
      write current_pcr1 (Z.lor (Z.land v (not32 mask)) pcr1) ;;
      ret 0
    else
      ret 0.

Definition gpio_xec_pin_interrupt_configure
    (config : gpio_xec_config) (pin mode trig : Z) : M Z :=
  let pcr1 := 0 in
  let mask := 0 in
  (* Validate pin number range in terms of current port *)
  if Z.land (valid_ctrl_mask config) (BIT pin) =? 0 then
    ret (- EINVAL)
  (* Check if GPIO port supports interrupts *)
  else if negb (mode =? GPIO_INT_MODE_DISABLED)
          && (Z.land (flags config) GPIO_INT_ENABLE =? 0) then
    ret (- ENOTSUP)
  else
    (* Disable interrupt in the EC aggregator *)
    write (GIRQ_ENCLR (girq_id config)) (BIT pin) ;;
    (* Assemble mask for level/edge triggered interrupts *)
    let mask := Z.lor mask MCHP_GPIO_CTRL_IDET_MASK in
    let assembled : option Z :=
      if mode =? GPIO_INT_MODE_DISABLED then
        Some (Z.lor pcr1 MCHP_GPIO_CTRL_IDET_DISABLE)
      else
        let gpio_interrupt : option Z :=
          if mode =? GPIO_INT_MODE_LEVEL then
            if trig =? GPIO_INT_TRIG_HIGH then Some MCHP_GPIO_CTRL_IDET_LVL_HI
            else Some MCHP_GPIO_CTRL_IDET_LVL_LO
          else
            (* switch (trig) *)
            if trig =? GPIO_INT_TRIG_LOW then Some MCHP_GPIO_CTRL_IDET_FEDGE
            else if trig =? GPIO_INT_TRIG_HIGH then Some MCHP_GPIO_CTRL_IDET_REDGE
            else if trig =? GPIO_INT_TRIG_BOTH then Some MCHP_GPIO_CTRL_IDET_BEDGE
            else None in
        match gpio_interrupt with
        | Some gpio_interrupt => Some (Z.lor pcr1 gpio_interrupt)
        | None => None
        end in
    match assembled with
    | None => ret (- EINVAL)        (* default: return -EINVAL; *)
    | Some pcr1 =>
        let current_pcr1 := PCR1 (pcr1_base config + pin) in
        v <- read current_pcr1 ;;
        write current_pcr1 (Z.lor (Z.land v (not32 mask)) pcr1) ;;
        dmb ;;
        (if negb (mode =? GPIO_INT_MODE_DISABLED) then
           MCHP_GIRQ_SRC_CLR (girq_id config) pin ;;
           write (GIRQ_ENSET (girq_id config)) (BIT pin)
         else ret tt) ;;
        ret 0
    end.

Definition gpio_xec_port_set_masked_raw
    (config : gpio_xec_config) (mask value : Z) : M Z :=
  let gpio_base := GPIO_OUT_BASE config in
  o <- read gpio_base ;;
  write gpio_base (Z.lor (Z.land o (not32 mask)) (Z.land mask value)) ;;
  ret 0.

Definition gpio_xec_port_set_bits_raw (config : gpio_xec_config) (mask : Z) : M Z :=
  let gpio_base := GPIO_OUT_BASE config in
  o <- read gpio_base ;;
  write gpio_base (Z.lor o mask) ;;
  ret 0.

Definition gpio_xec_port_clear_bits_raw (config : gpio_xec_config) (mask : Z) : M Z :=
  let gpio_base := GPIO_OUT_BASE config in
  o <- read gpio_base ;;
  write gpio_base (Z.land o (not32 mask)) ;;
  ret 0.

Definition gpio_xec_port_toggle_bits (config : gpio_xec_config) (mask : Z) : M Z :=
  let gpio_base := GPIO_OUT_BASE config in
  o <- read gpio_base ;;
  write gpio_base (Z.lxor o mask) ;;
  ret 0.

(** Returns the status and the word stored to [*value]. *)
Definition gpio_xec_port_get_raw (config : gpio_xec_config) : M (Z * Z) :=
  let gpio_base := GPIO_IN_BASE config in
  v <- read gpio_base ;;
  ret (0, v).

(** Modelled from the spec: [gpio_fire_callbacks] of gpio_utils.h, which is
    not part of the driver file.  It iterates the callback registry and, for
    each entry whose interest mask intersects the captured result value,
    invokes its handler, passing the full result value. *)
Fixpoint gpio_fire_callbacks (list : list gpio_callback) (pins : Z) : M unit :=
  match list with
  | [] => ret tt
  | cb :: rest =>
      (if is_set (pin_mask cb) pins then call_handler cb pins else ret tt) ;;
      gpio_fire_callbacks rest pins
  end.

Definition gpio_gpio_xec_port_isr (config : gpio_xec_config) (data : gpio_xec_data)
  : M unit :=
  (* which interrupts have been triggered *)
  girq_result <- read (GIRQ_RESULT (girq_id config)) ;;
  (* Clear source register in aggregator before firing callbacks *)
  write (GIRQ_SRC (girq_id config)) girq_result ;;
  gpio_fire_callbacks (callbacks data) girq_result.

(** The word [gpio_xec_configure] stores to the control register first: the
    fields in its mask are replaced, all others kept. *)
Definition configure_first_word (flags old : Z) : Z :=
  let mask :=
    Z.lor (Z.lor (Z.lor (Z.lor (Z.lor
      MCHP_GPIO_CTRL_DIR_MASK MCHP_GPIO_CTRL_INPAD_DIS_MASK)
      MCHP_GPIO_CTRL_PWRG_MASK) MCHP_GPIO_CTRL_PUD_MASK)
      MCHP_GPIO_CTRL_BUFT_MASK) MCHP_GPIO_CTRL_AOD_MASK in
  let pcr1 := MCHP_GPIO_CTRL_DIR_INPUT in
  let pcr1 :=
    if is_set flags GPIO_PULL_UP then Z.lor pcr1 MCHP_GPIO_CTRL_PUD_PU
    else if is_set flags GPIO_PULL_DOWN then Z.lor pcr1 MCHP_GPIO_CTRL_PUD_PD
    else pcr1 in
  let pcr1 :=
    if is_set flags GPIO_OPEN_DRAIN then Z.lor pcr1 MCHP_GPIO_CTRL_BUFT_OPENDRAIN
    else Z.lor pcr1 MCHP_GPIO_CTRL_BUFT_PUSHPULL in
  let pcr1 := Z.lor pcr1 MCHP_GPIO_CTRL_AOD_DIS in
  let pcr1 :=
    if flags =? GPIO_DISCONNECTED then Z.lor pcr1 MCHP_GPIO_CTRL_PWRG_OFF
    else pcr1 in
  Z.lor (Z.land old (not32 mask)) pcr1.

(** The word its second store leaves there when [GPIO_OUTPUT] is requested. *)
Definition configure_second_word (w : Z) : Z :=
  Z.lor (Z.land w (not32 MCHP_GPIO_CTRL_DIR_MASK)) MCHP_GPIO_CTRL_DIR_OUTPUT.

(** The stores to the output register between the two. *)
Definition configure_preload (config : gpio_xec_config) (pin flags old_out : Z)
  : list event :=
  if is_set flags GPIO_OUTPUT_INIT_HIGH then
    [EvWrite (GPIO_OUT_BASE config) (Z.lor old_out (BIT pin))]
  else if is_set flags GPIO_OUTPUT_INIT_LOW then
    [EvWrite (GPIO_OUT_BASE config) (Z.land old_out (not32 (BIT pin)))]
  else [].

(** The pull selection the flags ask for. *)
Definition pull_encoding (flags : Z) : Z :=
  if is_set flags GPIO_PULL_UP then MCHP_GPIO_CTRL_PUD_PU
  else if is_set flags GPIO_PULL_DOWN then MCHP_GPIO_CTRL_PUD_PD
  else 0.

(** The interrupt detection the driver programs for a mode and trigger it
    accepts. *)
Definition idet_encoding (mode trig : Z) : Z :=
  if mode =? GPIO_INT_MODE_DISABLED then MCHP_GPIO_CTRL_IDET_DISABLE
  else if mode =? GPIO_INT_MODE_LEVEL then
    if trig =? GPIO_INT_TRIG_HIGH then MCHP_GPIO_CTRL_IDET_LVL_HI
    else MCHP_GPIO_CTRL_IDET_LVL_LO
  else if trig =? GPIO_INT_TRIG_LOW then MCHP_GPIO_CTRL_IDET_FEDGE
  else if trig =? GPIO_INT_TRIG_HIGH then MCHP_GPIO_CTRL_IDET_REDGE
  else MCHP_GPIO_CTRL_IDET_BEDGE.

(** The word [gpio_xec_pin_interrupt_configure] stores to the control
    register: only the detection field is replaced. *)
Definition interrupt_word (mode trig old : Z) : Z :=
  Z.lor (Z.land old (not32 MCHP_GPIO_CTRL_IDET_MASK)) (idet_encoding mode trig).

(** The calls of [gpio_xec_configure] that pass both checks: the pin is in
    the port's bitmap and the flags do not ask for open source. *)
Definition configure_accepts (config : gpio_xec_config) (pin fl : Z) : Prop :=
  Z.land (valid_ctrl_mask config) (BIT pin) <> 0 /\
  (Z.land fl GPIO_SINGLE_ENDED = 0 \/ Z.land fl GPIO_LINE_OPEN_DRAIN <> 0).

(** The calls of [gpio_xec_pin_interrupt_configure] that pass both checks:
    the pin is in the port's bitmap and the port has interrupts unless none
    is asked for. *)
Definition interrupt_accepts (config : gpio_xec_config) (pin mode : Z) : Prop :=
  Z.land (valid_ctrl_mask config) (BIT pin) <> 0 /\
  (mode = GPIO_INT_MODE_DISABLED \/ Z.land (flags config) GPIO_INT_ENABLE <> 0).

(** The trigger does not name an edge: the [default] case of the switch. *)
Definition bad_edge_trigger (mode trig : Z) : Prop :=
  mode <> GPIO_INT_MODE_DISABLED /\ mode <> GPIO_INT_MODE_LEVEL /\
  trig <> GPIO_INT_TRIG_LOW /\ trig <> GPIO_INT_TRIG_HIGH /\
  trig <> GPIO_INT_TRIG_BOTH.

(** The mode and trigger for which the driver finds an encoding. *)
Definition trigger_accepted (mode trig : Z) : Prop :=
  mode = GPIO_INT_MODE_DISABLED \/ mode = GPIO_INT_MODE_LEVEL \/
  trig = GPIO_INT_TRIG_LOW \/ trig = GPIO_INT_TRIG_HIGH \/
  trig = GPIO_INT_TRIG_BOTH.

End Driver.

(** ** A concrete set of headers and a concrete board

    An instance of the interface on which the driver can be run: flag and
    field values in the style of Zephyr's gpio.h and of the MEC1501 HAL.
    The theorems below hold for every instance that satisfies [hal_ok]. *)
Definition mec1501 : XecHal := {|
  EINVAL := 22;
  ENOTSUP := 134;
  GPIO_SINGLE_ENDED := 0x2;
  GPIO_LINE_OPEN_DRAIN := 0x4;
  GPIO_OPEN_DRAIN := 0x6;
  GPIO_PULL_UP := 0x10;
  GPIO_PULL_DOWN := 0x20;
  GPIO_OUTPUT := 0x200;
  GPIO_OUTPUT_INIT_LOW := 0x400;
  GPIO_OUTPUT_INIT_HIGH := 0x800;
  GPIO_DISCONNECTED := 0;
  GPIO_INT_ENABLE := 0x4000;
  GPIO_INT_MODE_DISABLED := 0x2000;
  GPIO_INT_MODE_LEVEL := 0x4000;
  GPIO_INT_MODE_EDGE := 0x14000;
  GPIO_INT_TRIG_LOW := 0x20000;
  GPIO_INT_TRIG_HIGH := 0x40000;
  GPIO_INT_TRIG_BOTH := 0x60000;
  MCHP_GPIO_CTRL_DIR_MASK := 0x200;
  MCHP_GPIO_CTRL_DIR_INPUT := 0;
  MCHP_GPIO_CTRL_DIR_OUTPUT := 0x200;
  MCHP_GPIO_CTRL_INPAD_DIS_MASK := 0x8000;
  MCHP_GPIO_CTRL_PWRG_MASK := 0xC;
  MCHP_GPIO_CTRL_PWRG_OFF := 0x8;
  MCHP_GPIO_CTRL_PUD_MASK := 0x3;
  MCHP_GPIO_CTRL_PUD_PU := 0x1;
  MCHP_GPIO_CTRL_PUD_PD := 0x2;
  MCHP_GPIO_CTRL_BUFT_MASK := 0x100;
  MCHP_GPIO_CTRL_BUFT_OPENDRAIN := 0x100;
  MCHP_GPIO_CTRL_BUFT_PUSHPULL := 0;
  MCHP_GPIO_CTRL_AOD_MASK := 0x400;
  MCHP_GPIO_CTRL_AOD_DIS := 0x400;
  MCHP_GPIO_CTRL_IDET_MASK := 0xF0;
  MCHP_GPIO_CTRL_IDET_DISABLE := 0x40;
  MCHP_GPIO_CTRL_IDET_LVL_HI := 0x10;
  MCHP_GPIO_CTRL_IDET_LVL_LO := 0;
  MCHP_GPIO_CTRL_IDET_FEDGE := 0xE0;
  MCHP_GPIO_CTRL_IDET_REDGE := 0xD0;
  MCHP_GPIO_CTRL_IDET_BEDGE := 0xF0;
  MCHP_GPIO_PORT_A_BITMAP := 0x7FFFFF9D;
  MCHP_GPIO_PORT_B_BITMAP := 0x0FFFFFFD;
  MCHP_GPIO_PORT_C_BITMAP := 0x07FFFFFF;
  MCHP_GPIO_PORT_D_BITMAP := 0x272EFFFF;
  MCHP_GPIO_PORT_E_BITMAP := 0x00DE00FF;
  MCHP_GPIO_PORT_F_BITMAP := 0x0000397F
|}.

(** The first port instance of the driver, with its interrupt wired to
    aggregator 11. *)
Definition port000_036_config : gpio_xec_config :=
  {| pcr1_base := 0; girq_id := 11; port_num := 0;
     flags := @GPIO_INT_ENABLE mec1501 |}.

(** The same port on a board whose device tree gives it no interrupt. *)
Definition port000_036_noirq_config : gpio_xec_config :=
  {| pcr1_base := 0; girq_id := 0; port_num := 0; flags := 0 |}.

(** Registers after reset, nothing recorded. *)
Definition hw0 : hw :=
  {| pcr1 := fun _ => 0; parout := fun _ => 0; parin := fun _ => 0;
     girq_en := fun _ => 0; girq_src := fun _ => 0; trace := [] |}.

(** A register file with some interrupts enabled and latched on GIRQ 11. *)
Definition hw_pending : hw :=
  {| pcr1 := fun _ => 0; parout := fun _ => 0; parin := fun _ => 0;
     girq_en := fun _ => 0x0F; girq_src := fun _ => 0x35; trace := [] |}.

(** ** Summaries of what the operations leave in the registers *)

(** [( *r & ~mask) | v], the read-modify-write of the driver. *)
Definition rmw (old mask v : Z) : Z := Z.lor (Z.land old (not32 mask)) v.

(** Every register of the register file holds a 32-bit word. *)
Definition hw_word32 (s : hw) : Prop :=
  forall k, word32 (pcr1 s k) /\ word32 (parout s k) /\ word32 (parin s k) /\
            word32 (girq_en s k) /\ word32 (girq_src s k).

Section Summaries.

Context {HAL : XecHal}.

(** The word [gpio_xec_configure] leaves in the pin's control register. *)
Definition configure_final_word (flags old : Z) : Z :=
  if is_set flags GPIO_OUTPUT
  then configure_second_word (configure_first_word flags old)
  else configure_first_word flags old.

(** The word it leaves in the port's output register. *)
Definition configure_out_word (pin flags old_out : Z) : Z :=
  if is_set flags GPIO_OUTPUT then
    if is_set flags GPIO_OUTPUT_INIT_HIGH then Z.lor old_out (BIT pin)
    else if is_set flags GPIO_OUTPUT_INIT_LOW then Z.land old_out (not32 (BIT pin))
    else old_out
  else old_out.

(** The drive buffer the flags select. *)
Definition buffer_encoding (flags : Z) : Z :=
  if is_set flags GPIO_OPEN_DRAIN then MCHP_GPIO_CTRL_BUFT_OPENDRAIN
  else MCHP_GPIO_CTRL_BUFT_PUSHPULL.

(** The enable mask and the source bits of the aggregator after a call of
    [gpio_xec_pin_interrupt_configure] that succeeds. *)
Definition interrupt_enable_word (pin mode en : Z) : Z :=
  if mode =? GPIO_INT_MODE_DISABLED then Z.land en (not32 (BIT pin))
  else Z.lor (Z.land en (not32 (BIT pin))) (BIT pin).

Definition interrupt_source_word (pin mode src : Z) : Z :=
  if mode =? GPIO_INT_MODE_DISABLED then src
  else Z.land src (not32 (BIT pin)).

End Summaries.

(** * Properties *)

(** ** Bits of 32-bit words *)

Lemma wrap32_spec (x i : Z) :
  0 <= i -> Z.testbit (wrap32 x) i = Z.testbit x i && (i <? 32).
Proof.
  intros Hi. unfold wrap32.
  rewrite Z.land_spec, Z.testbit_ones_nonneg by lia. reflexivity.
Qed.

Lemma not32_spec (x i : Z) :
  0 <= i -> Z.testbit (not32 x) i = negb (Z.testbit x i) && (i <? 32).
Proof.
  intros Hi. unfold not32.
  rewrite wrap32_spec, Z.lnot_spec by lia. reflexivity.
Qed.

Lemma BIT_spec (n i : Z) :
  0 <= i -> Z.testbit (BIT n) i = (i =? n) && (i <? 32).
Proof.
  intros Hi. unfold BIT. rewrite wrap32_spec by lia. f_equal.
  destruct (Z.eqb_spec i n) as [->|Hne].
  - rewrite Z.shiftl_spec by lia. rewrite Z.sub_diag. reflexivity.
  - destruct (Z_lt_le_dec n 0) as [Hn|Hn].
    + rewrite Z.shiftl_spec by lia.
      replace 1 with (2 ^ 0) by reflexivity.
      apply Z.pow2_bits_false. lia.
    + rewrite Z.shiftl_spec by lia.
      destruct (Z_lt_le_dec (i - n) 0) as [Hlt|Hge].
      * apply Z.testbit_neg_r. lia.
      * replace 1 with (2 ^ 0) by reflexivity.
        apply Z.pow2_bits_false. lia.
Qed.

Lemma word32_high_bit (x i : Z) : word32 x -> 32 <= i -> Z.testbit x i = false.
Proof.
  intros [Hlo Hhi] Hi.
  destruct (Z.eq_dec x 0) as [->|Hx]; [apply Z.bits_0|].
  apply Z.bits_above_log2; [lia|].
  apply Z.log2_lt_pow2; [lia|].
  apply Z.lt_le_trans with (2 ^ 32); [assumption|].
  apply Z.pow_le_mono_r; lia.
Qed.

Lemma is_set_true (x m : Z) : is_set x m = true <-> Z.land x m <> 0.
Proof.
  unfold is_set. destruct (Z.eqb_spec (Z.land x m) 0); simpl; split; congruence.
Qed.

Lemma is_set_false (x m : Z) : is_set x m = false <-> Z.land x m = 0.
Proof.
  unfold is_set. destruct (Z.eqb_spec (Z.land x m) 0); simpl; split; congruence.
Qed.

(** A bit of a value that lies inside a field is a bit of the field. *)
Lemma inside_bit (v F i : Z) :
  Z.land v F = v -> Z.testbit v i = true -> Z.testbit F i = true.
Proof.
  intros Hin Hv. rewrite <- Hin, Z.land_spec in Hv.
  apply andb_true_iff in Hv. apply Hv.
Qed.

Lemma disjoint_bit (F G i : Z) :
  Z.land F G = 0 -> Z.testbit F i = true -> Z.testbit G i = false.
Proof.
  intros Hd HF.
  assert (Hb : Z.testbit (Z.land F G) i = false) by (rewrite Hd; apply Z.bits_0).
  rewrite Z.land_spec, HF in Hb. exact Hb.
Qed.

(** A value inside one field has no bit in a disjoint field. *)
Lemma inside_other_field (v F G : Z) :
  Z.land v F = v -> Z.land F G = 0 -> Z.land v G = 0.
Proof.
  intros Hin Hd. rewrite <- Hin, <- Z.land_assoc, Hd. apply Z.land_0_r.
Qed.

(** A read-modify-write [( *r & ~m) | v] replaces every field inside the
    mask by the bits of [v]. *)
Lemma rmw_field (old m v F : Z) :
  Z.land F m = F ->
  Z.land (Z.lor (Z.land old (not32 m)) v) F = Z.land v F.
Proof.
  intros Hin. apply Z.bits_inj'. intros i Hi.
  rewrite !Z.land_spec, Z.lor_spec, Z.land_spec, not32_spec by lia.
  destruct (Z.testbit F i) eqn:HF; [|rewrite !andb_false_r; reflexivity].
  rewrite (inside_bit F m i Hin HF). simpl.
  rewrite andb_false_r. reflexivity.
Qed.

(** It keeps every 32-bit field outside the mask and outside [v]. *)
Lemma rmw_keep (old m v G : Z) :
  word32 G -> Z.land m G = 0 -> Z.land v G = 0 ->
  Z.land (Z.lor (Z.land old (not32 m)) v) G = Z.land old G.
Proof.
  intros HG Hd Hv. apply Z.bits_inj'. intros i Hi.
  rewrite !Z.land_spec, Z.lor_spec, Z.land_spec, not32_spec by lia.
  destruct (Z.testbit G i) eqn:HGi; [|rewrite !andb_false_r; reflexivity].
  assert (Hm : Z.testbit m i = false).
  { destruct (Z.testbit m i) eqn:Hm; [|reflexivity].
    rewrite (disjoint_bit m G i Hd Hm) in HGi. discriminate. }
  assert (Hvi : Z.testbit v i = false).
  { destruct (Z.testbit v i) eqn:Hvi; [|reflexivity].
    rewrite (disjoint_bit v G i Hv Hvi) in HGi. discriminate. }
  assert (Hlt : (i <? 32) = true).
  { apply Z.ltb_lt. destruct (Z_lt_le_dec i 32) as [|Hge]; [assumption|].
    rewrite (word32_high_bit G i HG Hge) in HGi. discriminate. }
  rewrite Hm, Hvi, Hlt. simpl. rewrite !andb_true_r, orb_false_r. reflexivity.
Qed.

(** [out | BIT(pin)] has the pin's bit, [out & ~BIT(pin)] has not. *)
Lemma set_pin_bit (o pin : Z) :
  0 <= pin < 32 -> Z.testbit (Z.lor o (BIT pin)) pin = true.
Proof.
  intros Hp. rewrite Z.lor_spec, BIT_spec by lia.
  rewrite Z.eqb_refl. replace (pin <? 32) with true by (symmetry; apply Z.ltb_lt; lia).
  apply orb_true_r.
Qed.

Lemma clear_pin_bit (o pin : Z) :
  0 <= pin < 32 -> Z.testbit (Z.land o (not32 (BIT pin))) pin = false.
Proof.
  intros Hp. rewrite Z.land_spec, not32_spec, BIT_spec by lia.
  rewrite Z.eqb_refl. replace (pin <? 32) with true by (symmetry; apply Z.ltb_lt; lia).
  simpl. apply andb_false_r.
Qed.

(** A pin whose bit is in a bitmap is one of the 32 pins of a port. *)
Lemma valid_pin_range (bitmap pin : Z) :
  Z.land bitmap (BIT pin) <> 0 -> 0 <= pin < 32.
Proof.
  intros Hv.
  destruct (Z_lt_le_dec pin 0) as [Hneg|Hnn].
  - exfalso. apply Hv. apply Z.bits_inj'. intros i Hi.
    rewrite Z.land_spec, BIT_spec, Z.bits_0 by lia.
    replace (i =? pin) with false by (symmetry; apply Z.eqb_neq; lia).
    apply andb_false_r.
  - split; [assumption|].
    destruct (Z_lt_le_dec pin 32) as [|Hge]; [assumption|].
    exfalso. apply Hv. apply Z.bits_inj'. intros i Hi.
    rewrite Z.land_spec, BIT_spec, Z.bits_0 by lia.
    destruct (Z.eqb_spec i pin) as [->|]; simpl; [|apply andb_false_r].
    replace (pin <? 32) with false by (symmetry; apply Z.ltb_ge; lia).
    apply andb_false_r.
Qed.

Lemma land_lor_in_r (F a : Z) : Z.land F (Z.lor a F) = F.
Proof.
  apply Z.bits_inj'. intros i _. rewrite Z.land_spec, Z.lor_spec.
  destruct (Z.testbit F i), (Z.testbit a i); reflexivity.
Qed.

Lemma land_lor_in_l (F a b : Z) : Z.land F a = F -> Z.land F (Z.lor a b) = F.
Proof.
  intros H. apply Z.bits_inj'. intros i _. rewrite Z.land_spec, Z.lor_spec.
  destruct (Z.testbit F i) eqn:HF; [|reflexivity].
  rewrite (inside_bit F a i H HF). reflexivity.
Qed.

(** ** Running the monad *)

Lemma upd_same (f : Z -> Z) (k v : Z) : upd f k v k = v.
Proof. unfold upd. rewrite Z.eqb_refl. reflexivity. Qed.

(** Brings the facts of [hal_ok] into the context, one hypothesis per pair of
    disjoint fields. *)
Ltac hal_facts OK :=
  let Hw := fresh "Hword" in
  let Hd := fresh "Hdisj" in
  pose proof (ctrl_masks_word32 _ OK) as Hw;
  pose proof (ctrl_masks_disjoint _ OK) as Hd;
  pose proof (DIR_INPUT_in _ OK); pose proof (DIR_OUTPUT_in _ OK);
  pose proof (PWRG_OFF_in _ OK); pose proof (PUD_PU_in _ OK);
  pose proof (PUD_PD_in _ OK); pose proof (BUFT_OPENDRAIN_in _ OK);
  pose proof (BUFT_PUSHPULL_in _ OK); pose proof (AOD_DIS_in _ OK);
  simpl in Hd; rewrite ?Forall_cons_iff in Hd; rewrite ?Forall_cons_iff in Hw;
  repeat match goal with
         | H : _ /\ _ |- _ => destruct H
         end.

(** [v & G = 0] for an encoding [v] of a field other than [G]. *)
Ltac other_field :=
  match goal with
  | H : Z.land ?v ?F = ?v |- Z.land ?v ?G = 0 =>
      apply (inside_other_field v F G H);
      first [assumption | rewrite Z.land_comm; assumption]
  end.

(** [F & mask = F] for a field [F] that was or-ed into [mask]. *)
Ltac in_mask :=
  repeat first [apply Z.land_diag | apply land_lor_in_r | apply land_lor_in_l].

(** Reduces [(v1 | ... | vn) & M] to the encoding among the [vi] that
    belongs to the field [M]. *)
Ltac extract_field M :=
  rewrite ?Z.land_lor_distr_l, ?Z.land_0_l;
  repeat match goal with
         | |- context [Z.land ?v M] =>
             first [ rewrite (ltac:(other_field) : Z.land v M = 0)
                   | progress replace (Z.land v M) with v by (symmetry; assumption) ]
         end;
  rewrite ?Z.lor_0_r, ?Z.lor_0_l.

Section ConfigureFacts.

Context {HAL : XecHal} (OK : hal_ok HAL).

(** *** The fields of the first word stored to the control register *)

Lemma first_word_dir (fl old : Z) :
  Z.land (configure_first_word fl old) MCHP_GPIO_CTRL_DIR_MASK
  = MCHP_GPIO_CTRL_DIR_INPUT.
Proof.
  hal_facts OK. unfold configure_first_word.
  rewrite rmw_field by in_mask.
  destruct (is_set fl GPIO_PULL_UP), (is_set fl GPIO_PULL_DOWN),
    (is_set fl GPIO_OPEN_DRAIN), (fl =? GPIO_DISCONNECTED);
    extract_field MCHP_GPIO_CTRL_DIR_MASK; reflexivity.
Qed.

Lemma first_word_aod (fl old : Z) :
  Z.land (configure_first_word fl old) MCHP_GPIO_CTRL_AOD_MASK
  = MCHP_GPIO_CTRL_AOD_DIS.
Proof.
  hal_facts OK. unfold configure_first_word.
  rewrite rmw_field by in_mask.
  destruct (is_set fl GPIO_PULL_UP), (is_set fl GPIO_PULL_DOWN),
    (is_set fl GPIO_OPEN_DRAIN), (fl =? GPIO_DISCONNECTED);
    extract_field MCHP_GPIO_CTRL_AOD_MASK; reflexivity.
Qed.

Lemma first_word_pwrg (fl old : Z) :
  Z.land (configure_first_word fl old) MCHP_GPIO_CTRL_PWRG_MASK
  = if fl =? GPIO_DISCONNECTED then MCHP_GPIO_CTRL_PWRG_OFF else 0.
Proof.
  hal_facts OK. unfold configure_first_word.
  rewrite rmw_field by in_mask.
  destruct (is_set fl GPIO_PULL_UP), (is_set fl GPIO_PULL_DOWN),
    (is_set fl GPIO_OPEN_DRAIN), (fl =? GPIO_DISCONNECTED);
    extract_field MCHP_GPIO_CTRL_PWRG_MASK; reflexivity.
Qed.

Lemma first_word_pud (fl old : Z) :
  Z.land (configure_first_word fl old) MCHP_GPIO_CTRL_PUD_MASK
  = pull_encoding fl.
Proof.
  hal_facts OK. unfold configure_first_word, pull_encoding.
  rewrite rmw_field by in_mask.
  destruct (is_set fl GPIO_PULL_UP), (is_set fl GPIO_PULL_DOWN),
    (is_set fl GPIO_OPEN_DRAIN), (fl =? GPIO_DISCONNECTED);
    extract_field MCHP_GPIO_CTRL_PUD_MASK; reflexivity.
Qed.

(** *** The second word: direction becomes output, the rest stays *)

Lemma second_word_dir (w : Z) :
  Z.land (configure_second_word w) MCHP_GPIO_CTRL_DIR_MASK
  = MCHP_GPIO_CTRL_DIR_OUTPUT.
Proof.
  unfold configure_second_word. rewrite rmw_field by apply Z.land_diag.
  apply (DIR_OUTPUT_in _ OK).
Qed.

Lemma second_word_keeps (w G : Z) :
  word32 G -> Z.land MCHP_GPIO_CTRL_DIR_MASK G = 0 ->
  Z.land (configure_second_word w) G = Z.land w G.
Proof.
  intros HG Hd. unfold configure_second_word. apply rmw_keep; try assumption.
  apply (inside_other_field _ _ _ (DIR_OUTPUT_in _ OK) Hd).
Qed.

Lemma second_word_aod (w : Z) :
  Z.land (configure_second_word w) MCHP_GPIO_CTRL_AOD_MASK
  = Z.land w MCHP_GPIO_CTRL_AOD_MASK.
Proof. hal_facts OK. apply second_word_keeps; assumption. Qed.

Lemma second_word_pud (w : Z) :
  Z.land (configure_second_word w) MCHP_GPIO_CTRL_PUD_MASK
  = Z.land w MCHP_GPIO_CTRL_PUD_MASK.
Proof. hal_facts OK. apply second_word_keeps; assumption. Qed.

(** *** What a call of [gpio_xec_configure] does *)

Lemma configure_invalid_pin (config : gpio_xec_config) (pin fl : Z) (s : hw) :
  Z.land (valid_ctrl_mask config) (BIT pin) = 0 ->
  gpio_xec_configure config pin fl s = (- EINVAL, s).
Proof.
  intros Hv. unfold gpio_xec_configure. rewrite Hv. reflexivity.
Qed.

Lemma configure_open_source (config : gpio_xec_config) (pin fl : Z) (s : hw) :
  Z.land (valid_ctrl_mask config) (BIT pin) <> 0 ->
  Z.land fl GPIO_SINGLE_ENDED <> 0 ->
  Z.land fl GPIO_LINE_OPEN_DRAIN = 0 ->
  gpio_xec_configure config pin fl s = (- ENOTSUP, s).
Proof.
  intros Hv Hse Hod. unfold gpio_xec_configure.
  apply Z.eqb_neq in Hv. rewrite Hv.
  apply is_set_true in Hse. rewrite Hse, Hod. reflexivity.
Qed.

Lemma configure_accepted (config : gpio_xec_config) (pin fl : Z) (s : hw) :
  configure_accepts config pin fl ->
  let p := pcr1_base config + pin in
  let w := configure_first_word fl (pcr1 s p) in
  result (gpio_xec_configure config pin fl) s = 0 /\
  trace (final (gpio_xec_configure config pin fl) s)
  = trace s ++
      EvWrite (PCR1 p) w ::
      (if is_set fl GPIO_OUTPUT then
         configure_preload config pin fl (parout s (port_num config)) ++
         [EvWrite (PCR1 p) (configure_second_word w)]
       else []) /\
  pcr1 (final (gpio_xec_configure config pin fl) s) p
  = (if is_set fl GPIO_OUTPUT then configure_second_word w else w).
Proof.
  intros [Hv Hmode] p w. subst p w.
  unfold result, final, gpio_xec_configure, configure_preload.
  apply Z.eqb_neq in Hv. rewrite Hv.
  replace (is_set fl GPIO_SINGLE_ENDED && (Z.land fl GPIO_LINE_OPEN_DRAIN =? 0))
    with false.
  2:{ symmetry. destruct Hmode as [H|H].
      - apply is_set_false in H. rewrite H. reflexivity.
      - apply Z.eqb_neq in H. rewrite H. apply andb_false_r. }
  fold (configure_first_word fl (pcr1 s (pcr1_base config + pin))).
  unfold bind, read, write, ret, GPIO_OUT_BASE; simpl.
  destruct (is_set fl GPIO_OUTPUT); simpl.
  - destruct (is_set fl GPIO_OUTPUT_INIT_HIGH); simpl;
      [|destruct (is_set fl GPIO_OUTPUT_INIT_LOW); simpl];
      rewrite ?upd_same; fold (configure_second_word (configure_first_word fl (pcr1 s (pcr1_base config + pin))));
      rewrite <- ?app_assoc; simpl; auto.
  - rewrite upd_same. auto.
Qed.

End ConfigureFacts.

Section InterruptFacts.

Context {HAL : XecHal}.

Lemma interrupt_word_idet (OK : hal_ok HAL) (mode trig old : Z) :
  Z.land (interrupt_word mode trig old) MCHP_GPIO_CTRL_IDET_MASK
  = idet_encoding mode trig.
Proof.
  unfold interrupt_word. rewrite rmw_field by apply Z.land_diag.
  unfold idet_encoding.
  destruct (mode =? GPIO_INT_MODE_DISABLED); [apply (IDET_DISABLE_in _ OK)|].
  destruct (mode =? GPIO_INT_MODE_LEVEL).
  - destruct (trig =? GPIO_INT_TRIG_HIGH);
      [apply (IDET_LVL_HI_in _ OK) | apply (IDET_LVL_LO_in _ OK)].
  - destruct (trig =? GPIO_INT_TRIG_LOW); [apply (IDET_FEDGE_in _ OK)|].
    destruct (trig =? GPIO_INT_TRIG_HIGH);
      [apply (IDET_REDGE_in _ OK) | apply (IDET_BEDGE_in _ OK)].
Qed.

Lemma interrupt_invalid_pin (config : gpio_xec_config) (pin mode trig : Z) (s : hw) :
  Z.land (valid_ctrl_mask config) (BIT pin) = 0 ->
  gpio_xec_pin_interrupt_configure config pin mode trig s = (- EINVAL, s).
Proof.
  intros Hv. unfold gpio_xec_pin_interrupt_configure. rewrite Hv. reflexivity.
Qed.

Lemma interrupt_no_capability (config : gpio_xec_config) (pin mode trig : Z) (s : hw) :
  Z.land (valid_ctrl_mask config) (BIT pin) <> 0 ->
  mode <> GPIO_INT_MODE_DISABLED ->
  Z.land (flags config) GPIO_INT_ENABLE = 0 ->
  gpio_xec_pin_interrupt_configure config pin mode trig s = (- ENOTSUP, s).
Proof.
  intros Hv Hm Hcap. unfold gpio_xec_pin_interrupt_configure.
  apply Z.eqb_neq in Hv. rewrite Hv.
  apply Z.eqb_neq in Hm. rewrite Hm, Hcap. reflexivity.
Qed.

Lemma interrupt_checks_pass (config : gpio_xec_config) (pin mode : Z) :
  interrupt_accepts config pin mode ->
  (Z.land (valid_ctrl_mask config) (BIT pin) =? 0) = false /\
  negb (mode =? GPIO_INT_MODE_DISABLED)
    && (Z.land (flags config) GPIO_INT_ENABLE =? 0) = false.
Proof.
  intros [Hv Hcap]. split; [apply Z.eqb_neq; assumption|].
  destruct Hcap as [->|Hcap].
  - rewrite Z.eqb_refl. reflexivity.
  - apply Z.eqb_neq in Hcap. rewrite Hcap. apply andb_false_r.
Qed.

(** The [default] case: the enable-clear store is already done. *)
Lemma interrupt_bad_trigger (config : gpio_xec_config) (pin mode trig : Z) (s : hw) :
  interrupt_accepts config pin mode ->
  bad_edge_trigger mode trig ->
  gpio_xec_pin_interrupt_configure config pin mode trig s
  = (- EINVAL,
     log (EvWrite (GIRQ_ENCLR (girq_id config)) (BIT pin))
         (store (GIRQ_ENCLR (girq_id config)) (BIT pin) s)).
Proof.
  intros Hacc (Hd & Hl & Hlo & Hhi & Hbo).
  destruct (interrupt_checks_pass _ _ _ Hacc) as [Hv Hcap].
  unfold gpio_xec_pin_interrupt_configure. rewrite Hv, Hcap.
  apply Z.eqb_neq in Hd, Hl, Hlo, Hhi, Hbo.
  rewrite Hd, Hl, Hlo, Hhi, Hbo. reflexivity.
Qed.

Lemma interrupt_accepted (config : gpio_xec_config) (pin mode trig : Z) (s : hw) :
  interrupt_accepts config pin mode ->
  trigger_accepted mode trig ->
  let id := girq_id config in
  let p := pcr1_base config + pin in
  let w := interrupt_word mode trig (pcr1 s p) in
  result (gpio_xec_pin_interrupt_configure config pin mode trig) s = 0 /\
  trace (final (gpio_xec_pin_interrupt_configure config pin mode trig) s)
  = trace s ++
      [EvWrite (GIRQ_ENCLR id) (BIT pin); EvWrite (PCR1 p) w; EvDmb] ++
      (if mode =? GPIO_INT_MODE_DISABLED then []
       else [EvWrite (GIRQ_SRC id) (BIT pin); EvWrite (GIRQ_ENSET id) (BIT pin)]) /\
  pcr1 (final (gpio_xec_pin_interrupt_configure config pin mode trig) s) p = w.
Proof.
  intros Hacc Htrig id p w. subst id p w.
  destruct (interrupt_checks_pass _ _ _ Hacc) as [Hv Hcap].
  unfold result, final, gpio_xec_pin_interrupt_configure, interrupt_word,
    idet_encoding.
  rewrite Hv, Hcap.
  unfold bind, read, write, dmb, ret, MCHP_GIRQ_SRC_CLR.
  destruct (mode =? GPIO_INT_MODE_DISABLED) eqn:Hd; simpl.
  { rewrite upd_same, <- !app_assoc. auto. }
  destruct (mode =? GPIO_INT_MODE_LEVEL) eqn:Hl; simpl.
  { destruct (trig =? GPIO_INT_TRIG_HIGH); simpl;
      rewrite upd_same, <- !app_assoc; auto. }
  destruct (trig =? GPIO_INT_TRIG_LOW) eqn:Hlo; simpl.
  { rewrite upd_same, <- !app_assoc; auto. }
  destruct (trig =? GPIO_INT_TRIG_HIGH) eqn:Hhi; simpl.
  { rewrite upd_same, <- !app_assoc; auto. }
  destruct (trig =? GPIO_INT_TRIG_BOTH) eqn:Hbo; simpl.
  { rewrite upd_same, <- !app_assoc; auto. }
  exfalso. unfold trigger_accepted in Htrig.
  apply Z.eqb_neq in Hd, Hl, Hlo, Hhi, Hbo. tauto.
Qed.

Lemma trigger_accepted_dec (mode trig : Z) :
  trigger_accepted mode trig \/ bad_edge_trigger mode trig.
Proof.
  unfold trigger_accepted, bad_edge_trigger.
  destruct (Z.eq_dec mode GPIO_INT_MODE_DISABLED); [tauto|].
  destruct (Z.eq_dec mode GPIO_INT_MODE_LEVEL); [tauto|].
  destruct (Z.eq_dec trig GPIO_INT_TRIG_LOW); [tauto|].
  destruct (Z.eq_dec trig GPIO_INT_TRIG_HIGH); [tauto|].
  destruct (Z.eq_dec trig GPIO_INT_TRIG_BOTH); tauto.
Qed.

(** Every call takes one of the four ways through the function. *)
Lemma interrupt_cases (config : gpio_xec_config) (pin mode trig : Z) :
  Z.land (valid_ctrl_mask config) (BIT pin) = 0 \/
  (Z.land (valid_ctrl_mask config) (BIT pin) <> 0 /\
   mode <> GPIO_INT_MODE_DISABLED /\ Z.land (flags config) GPIO_INT_ENABLE = 0) \/
  (interrupt_accepts config pin mode /\ bad_edge_trigger mode trig) \/
  (interrupt_accepts config pin mode /\ trigger_accepted mode trig).
Proof.
  unfold interrupt_accepts.
  destruct (Z.eq_dec (Z.land (valid_ctrl_mask config) (BIT pin)) 0); [tauto|].
  destruct (Z.eq_dec mode GPIO_INT_MODE_DISABLED);
    destruct (Z.eq_dec (Z.land (flags config) GPIO_INT_ENABLE) 0);
    destruct (trigger_accepted_dec mode trig); tauto.
Qed.

(** A call that returns 0 passed the checks and found an encoding. *)
Lemma interrupt_success_inv (OK : hal_ok HAL)
    (config : gpio_xec_config) (pin mode trig : Z) (s : hw) :
  result (gpio_xec_pin_interrupt_configure config pin mode trig) s = 0 ->
  interrupt_accepts config pin mode /\ trigger_accepted mode trig.
Proof.
  intros Hres. pose proof (EINVAL_pos _ OK). pose proof (ENOTSUP_pos _ OK).
  unfold result in Hres.
  destruct (interrupt_cases config pin mode trig)
    as [Hv | [(Hv & Hm & Hcap) | [(Hacc & Hbad) | Hok]]].
  - rewrite interrupt_invalid_pin in Hres by assumption. simpl in Hres. lia.
  - rewrite interrupt_no_capability in Hres by assumption. simpl in Hres. lia.
  - rewrite interrupt_bad_trigger in Hres by assumption. simpl in Hres. lia.
  - assumption.
Qed.

Lemma configure_cases (config : gpio_xec_config) (pin fl : Z) :
  Z.land (valid_ctrl_mask config) (BIT pin) = 0 \/
  (Z.land (valid_ctrl_mask config) (BIT pin) <> 0 /\
   Z.land fl GPIO_SINGLE_ENDED <> 0 /\ Z.land fl GPIO_LINE_OPEN_DRAIN = 0) \/
  configure_accepts config pin fl.
Proof.
  unfold configure_accepts.
  destruct (Z.eq_dec (Z.land (valid_ctrl_mask config) (BIT pin)) 0); [tauto|].
  destruct (Z.eq_dec (Z.land fl GPIO_SINGLE_ENDED) 0); [tauto|].
  destruct (Z.eq_dec (Z.land fl GPIO_LINE_OPEN_DRAIN) 0); tauto.
Qed.

Lemma configure_success_inv (OK : hal_ok HAL)
    (config : gpio_xec_config) (pin fl : Z) (s : hw) :
  result (gpio_xec_configure config pin fl) s = 0 ->
  configure_accepts config pin fl.
Proof.
  intros Hres. pose proof (EINVAL_pos _ OK). pose proof (ENOTSUP_pos _ OK).
  unfold result in Hres.
  destruct (configure_cases config pin fl) as [Hv | [(Hv & Hse & Hod) | Hok]].
  - rewrite configure_invalid_pin in Hres by assumption. simpl in Hres. lia.
  - rewrite configure_open_source in Hres by assumption. simpl in Hres. lia.
  - assumption.
Qed.

(** *** The interrupt service routine *)

Lemma fire_callbacks_trace (cbs : list gpio_callback) (pins : Z) (s : hw) :
  trace (final (gpio_fire_callbacks cbs pins) s)
  = trace s ++
      map (fun cb => EvCall cb pins)
          (filter (fun cb => is_set (pin_mask cb) pins) cbs).
Proof.
  revert s. induction cbs as [|cb rest IH]; intros s.
  - simpl. rewrite app_nil_r. reflexivity.
  - unfold final in *. simpl. unfold bind.
    destruct (is_set (pin_mask cb) pins); simpl.
    + rewrite IH. simpl. rewrite <- app_assoc. reflexivity.
    + apply IH.
Qed.

Lemma fire_callbacks_registers (cbs : list gpio_callback) (pins : Z) (s : hw) :
  let s' := final (gpio_fire_callbacks cbs pins) s in
  pcr1 s' = pcr1 s /\ parout s' = parout s /\ parin s' = parin s /\
  girq_en s' = girq_en s /\ girq_src s' = girq_src s.
Proof.
  revert s. induction cbs as [|cb rest IH]; intros s.
  - simpl. auto.
  - unfold final in *. simpl. unfold bind.
    destruct (is_set (pin_mask cb) pins); simpl.
    + exact (IH (log (EvCall cb pins) s)).
    + apply IH.
Qed.

End InterruptFacts.

(** ** The concrete headers satisfy what the driver relies on *)

Lemma mec1501_ok : hal_ok mec1501.
Proof.
  constructor; simpl; try reflexivity; try lia; try discriminate.
  - repeat constructor; unfold word32; simpl; lia.
  - repeat split; repeat constructor.
Qed.

(** * What the operations do *)

(** ** Rejected calls *)

(** C3: for every pin whose bit is not set in the port's valid-pin bitmap,
    [gpio_xec_configure] and [gpio_xec_pin_interrupt_configure] both return
    [-EINVAL] and leave the register file, trace included, as it was: no
    register is written, whatever the flags, mode and trigger. *)
Theorem invalid_pin_rejected {HAL : XecHal}
    (config : gpio_xec_config) (pin fl mode trig : Z) (s : hw) :
  Z.land (valid_ctrl_mask config) (BIT pin) = 0 ->
  gpio_xec_configure config pin fl s = (- EINVAL, s) /\
  gpio_xec_pin_interrupt_configure config pin mode trig s = (- EINVAL, s).
Proof.
  intros Hv. split.
  - apply configure_invalid_pin. assumption.
  - apply interrupt_invalid_pin. assumption.
Qed.

Lemma invalid_pin_rejected_witness :
  Z.land (@valid_ctrl_mask mec1501 port000_036_config) (BIT 1) = 0 /\
  @gpio_xec_configure mec1501 port000_036_config 1 0x200 hw0 = (- 22, hw0) /\
  @gpio_xec_pin_interrupt_configure mec1501 port000_036_config 1 0x14000 0x20000 hw0
  = (- 22, hw0).
Proof.
  split; [reflexivity|].
  apply (@invalid_pin_rejected mec1501 port000_036_config 1 0x200 0x14000 0x20000 hw0).
  reflexivity.
Defined.

(** C7, as the code has it: for every pin in the port's valid-pin bitmap, a
    call of [gpio_xec_configure] whose flags have [GPIO_SINGLE_ENDED] set and
    the open-drain line bit clear returns [-ENOTSUP] and writes no
    register. *)
Theorem open_source_unsupported {HAL : XecHal}
    (config : gpio_xec_config) (pin fl : Z) (s : hw) :
  Z.land (valid_ctrl_mask config) (BIT pin) <> 0 ->
  Z.land fl GPIO_SINGLE_ENDED <> 0 ->
  Z.land fl GPIO_LINE_OPEN_DRAIN = 0 ->
  gpio_xec_configure config pin fl s = (- ENOTSUP, s).
Proof. apply configure_open_source. Qed.

Lemma open_source_unsupported_witness :
  Z.land (@valid_ctrl_mask mec1501 port000_036_config) (BIT 0) <> 0 /\
  Z.land 0x2 (@GPIO_SINGLE_ENDED mec1501) <> 0 /\
  Z.land 0x2 (@GPIO_LINE_OPEN_DRAIN mec1501) = 0 /\
  @gpio_xec_configure mec1501 port000_036_config 0 0x2 hw0 = (- 134, hw0).
Proof.
  split; [discriminate|]. split; [discriminate|]. split; [reflexivity|].
  apply (@open_source_unsupported mec1501 port000_036_config 0 0x2 hw0);
    [discriminate | discriminate | reflexivity].
Defined.

(** C7 does not hold for every pin: pin 1 is not in the bitmap of port
    000-036, and asking for single-ended without open drain on it returns
    [-EINVAL] from the pin check, which comes first, and not [-ENOTSUP]. *)
Lemma open_source_on_invalid_pin :
  Z.land 0x2 (@GPIO_SINGLE_ENDED mec1501) <> 0 /\
  Z.land 0x2 (@GPIO_LINE_OPEN_DRAIN mec1501) = 0 /\
  result (@gpio_xec_configure mec1501 port000_036_config 1 0x2) hw0
  = - @EINVAL mec1501 /\
  result (@gpio_xec_configure mec1501 port000_036_config 1 0x2) hw0
  <> - @ENOTSUP mec1501.
Proof.
  split; [discriminate|]. split; [reflexivity|]. split; [reflexivity|].
  discriminate.
Qed.

(** C2, as the code has it: a call of [gpio_xec_configure] that returns an
    error has written no register.  A call of
    [gpio_xec_pin_interrupt_configure] that returns an error has written no
    register when the error comes from the pin check or the capability
    check; when both checks pass, the error comes from the [default] case of
    the trigger switch, and the
    pin's bit has been stored to the aggregator's enable-clear register and
    nothing else: the control register and the source bits are as before. *)
Theorem errors_and_register_writes {HAL : XecHal}
    (config : gpio_xec_config) (pin fl mode trig : Z) (s : hw) :
  (result (gpio_xec_configure config pin fl) s <> 0 ->
   final (gpio_xec_configure config pin fl) s = s) /\
  (result (gpio_xec_pin_interrupt_configure config pin mode trig) s <> 0 ->
   let s' := final (gpio_xec_pin_interrupt_configure config pin mode trig) s in
   (~ interrupt_accepts config pin mode /\ s' = s) \/
   (interrupt_accepts config pin mode /\ bad_edge_trigger mode trig /\
    trace s' = trace s ++ [EvWrite (GIRQ_ENCLR (girq_id config)) (BIT pin)] /\
    pcr1 s' = pcr1 s /\ parout s' = parout s /\ girq_src s' = girq_src s)).
Proof.
  split.
  - intros Herr. unfold final.
    destruct (configure_cases config pin fl) as [Hv | [(Hv & Hse & Hod) | Hok]].
    + rewrite configure_invalid_pin by assumption. reflexivity.
    + rewrite configure_open_source by assumption. reflexivity.
    + destruct (configure_accepted config pin fl s Hok) as [H0 _]. contradiction.
  - intros Herr s'. subst s'. unfold final.
    destruct (interrupt_cases config pin mode trig)
      as [Hv | [(Hv & Hm & Hcap) | [(Hacc & Hbad) | (Hacc & Hok)]]].
    + rewrite interrupt_invalid_pin by assumption. left.
      split; [intros [Hv' _]; contradiction | reflexivity].
    + rewrite interrupt_no_capability by assumption. left.
      split; [intros [_ [Hd | Hc]]; contradiction | reflexivity].
    + rewrite interrupt_bad_trigger by assumption. right.
      split; [exact Hacc|]. split; [exact Hbad|]. simpl. auto.
    + destruct (interrupt_accepted config pin mode trig s Hacc Hok) as [H0 _].
      contradiction.
Qed.

Lemma errors_and_register_writes_witness :
  final (@gpio_xec_configure mec1501 port000_036_config 0 0x202) hw0 = hw0 /\
  ((~ @interrupt_accepts mec1501 port000_036_noirq_config 0 0x14000 /\
    final (@gpio_xec_pin_interrupt_configure mec1501 port000_036_noirq_config
             0 0x14000 0x20000) hw0 = hw0) \/
   (@interrupt_accepts mec1501 port000_036_noirq_config 0 0x14000 /\
    @bad_edge_trigger mec1501 0x14000 0x20000 /\
    trace (final (@gpio_xec_pin_interrupt_configure mec1501 port000_036_noirq_config
                    0 0x14000 0x20000) hw0)
    = trace hw0 ++ [EvWrite (GIRQ_ENCLR (girq_id port000_036_noirq_config)) (BIT 0)] /\
    pcr1 (final (@gpio_xec_pin_interrupt_configure mec1501 port000_036_noirq_config
                   0 0x14000 0x20000) hw0) = pcr1 hw0 /\
    parout (final (@gpio_xec_pin_interrupt_configure mec1501 port000_036_noirq_config
                     0 0x14000 0x20000) hw0) = parout hw0 /\
    girq_src (final (@gpio_xec_pin_interrupt_configure mec1501 port000_036_noirq_config
                       0 0x14000 0x20000) hw0) = girq_src hw0)).
Proof.
  destruct (@errors_and_register_writes mec1501 port000_036_noirq_config
              0 0x202 0x14000 0x20000 hw0) as [Hc _].
  destruct (@errors_and_register_writes mec1501 port000_036_noirq_config
              0 0x202 0x14000 0x20000 hw0) as [_ Hi].
  split.
  - apply Hc. discriminate.
  - apply Hi. discriminate.
Defined.

(** C2 does not hold on the invalid-trigger path: on port 000-036, pin 0,
    edge mode with trigger 0 returns [-EINVAL], and by then the pin's bit has
    been stored to the enable-clear register of aggregator 11. *)
Lemma invalid_trigger_after_enable_clear :
  @bad_edge_trigger mec1501 0x14000 0 /\
  result (@gpio_xec_pin_interrupt_configure mec1501 port000_036_config 0 0x14000 0) hw0
  = - @EINVAL mec1501 /\
  trace (final (@gpio_xec_pin_interrupt_configure mec1501 port000_036_config
                  0 0x14000 0) hw0)
  = [EvWrite (GIRQ_ENCLR 11) 1] /\
  final (@gpio_xec_pin_interrupt_configure mec1501 port000_036_config 0 0x14000 0) hw0
  <> hw0.
Proof.
  split; [unfold bad_edge_trigger; simpl; repeat split; discriminate|].
  split; [reflexivity|]. split; [reflexivity|].
  intros H. apply (f_equal trace) in H. discriminate.
Qed.

(** ** Pin configuration *)

(** Takes apart an equation between a trace given element by element and
    [l1 ++ x :: l2]. *)
Ltac split_trace H l1 :=
  repeat (destruct l1 as [|? l1]; simpl in H;
          [ try discriminate H;
            try (injection H as ? ?; subst; try discriminate; auto)
          | try discriminate H;
            try (injection H as ? H; subst) ]).

(** C1, as the code has it: for every pin in the port's bitmap and all flags
    that contain [GPIO_OUTPUT] and pass the open-source check, the call
    succeeds and its register writes are, in this order: a read-modify-write
    of the pin's control register whose word has direction = input and
    AOD = disabled; then the store to the port's output register that sets
    the pin's bit when [GPIO_OUTPUT_INIT_HIGH] is in the flags, else clears
    it when [GPIO_OUTPUT_INIT_LOW] is, and is absent when neither is; then a
    read-modify-write of the control register whose word has direction =
    output and is otherwise the first word.  A store to the output register
    has the first control write before it and the direction write after. *)
Theorem configure_output_glitch_free {HAL : XecHal} (OK : hal_ok HAL)
    (config : gpio_xec_config) (pin fl : Z) (s : hw) :
  configure_accepts config pin fl ->
  Z.land fl GPIO_OUTPUT <> 0 ->
  let p := pcr1_base config + pin in
  let out := GPIO_OUT_BASE config in
  let o := parout s (port_num config) in
  let w1 := configure_first_word fl (pcr1 s p) in
  let w2 := configure_second_word w1 in
  let preload := configure_preload config pin fl o in
  let new := EvWrite (PCR1 p) w1 :: preload ++ [EvWrite (PCR1 p) w2] in
  result (gpio_xec_configure config pin fl) s = 0 /\
  trace (final (gpio_xec_configure config pin fl) s) = trace s ++ new /\
  Z.land w1 MCHP_GPIO_CTRL_DIR_MASK = MCHP_GPIO_CTRL_DIR_INPUT /\
  Z.land w1 MCHP_GPIO_CTRL_AOD_MASK = MCHP_GPIO_CTRL_AOD_DIS /\
  Z.land w2 MCHP_GPIO_CTRL_DIR_MASK = MCHP_GPIO_CTRL_DIR_OUTPUT /\
  Z.land w2 MCHP_GPIO_CTRL_AOD_MASK = MCHP_GPIO_CTRL_AOD_DIS /\
  (Z.land fl GPIO_OUTPUT_INIT_HIGH <> 0 ->
   preload = [EvWrite out (Z.lor o (BIT pin))] /\
   Z.testbit (Z.lor o (BIT pin)) pin = true) /\
  (Z.land fl GPIO_OUTPUT_INIT_HIGH = 0 -> Z.land fl GPIO_OUTPUT_INIT_LOW <> 0 ->
   preload = [EvWrite out (Z.land o (not32 (BIT pin)))] /\
   Z.testbit (Z.land o (not32 (BIT pin))) pin = false) /\
  (Z.land fl GPIO_OUTPUT_INIT_HIGH = 0 -> Z.land fl GPIO_OUTPUT_INIT_LOW = 0 ->
   preload = []) /\
  (forall l1 v l2, new = l1 ++ EvWrite out v :: l2 ->
   l1 = [EvWrite (PCR1 p) w1] /\ l2 = [EvWrite (PCR1 p) w2]).
Proof.
  intros Hacc Hout p out o w1 w2 preload new.
  pose proof (valid_pin_range _ _ (proj1 Hacc)) as Hpin.
  destruct (configure_accepted config pin fl s Hacc) as (Hres & Htr & _).
  apply is_set_true in Hout. rewrite Hout in Htr.
  split; [exact Hres|]. split; [exact Htr|].
  split; [apply first_word_dir; assumption|].
  split; [apply first_word_aod; assumption|].
  split; [apply second_word_dir; assumption|].
  split; [unfold w2; rewrite second_word_aod by assumption;
          apply first_word_aod; assumption|].
  subst new preload. unfold configure_preload, out, GPIO_OUT_BASE.
  split; [|split; [|split]].
  - intros Hh. apply is_set_true in Hh. rewrite Hh.
    split; [reflexivity | apply set_pin_bit; assumption].
  - intros Hh Hl. apply is_set_false in Hh. apply is_set_true in Hl.
    rewrite Hh, Hl. split; [reflexivity | apply clear_pin_bit; assumption].
  - intros Hh Hl. apply is_set_false in Hh, Hl. rewrite Hh, Hl. reflexivity.
  - intros l1 v l2 Heq.
    destruct (is_set fl GPIO_OUTPUT_INIT_HIGH);
      [|destruct (is_set fl GPIO_OUTPUT_INIT_LOW)]; simpl in Heq;
      split_trace Heq l1.
Qed.

Lemma configure_output_glitch_free_witness :
  @configure_accepts mec1501 port000_036_config 0 0xA00 /\
  Z.land 0xA00 (@GPIO_OUTPUT mec1501) <> 0 /\
  result (@gpio_xec_configure mec1501 port000_036_config 0 0xA00) hw0 = 0 /\
  trace (final (@gpio_xec_configure mec1501 port000_036_config 0 0xA00) hw0)
  = [EvWrite (PCR1 0) 0x400; EvWrite (GPIO_PAROUT 0) 1; EvWrite (PCR1 0) 0x600].
Proof.
  assert (Hacc : @configure_accepts mec1501 port000_036_config 0 0xA00)
    by (split; [discriminate | left; reflexivity]).
  assert (Hout : Z.land 0xA00 (@GPIO_OUTPUT mec1501) <> 0) by discriminate.
  split; [exact Hacc|]. split; [exact Hout|].
  destruct (@configure_output_glitch_free mec1501 mec1501_ok port000_036_config
              0 0xA00 hw0 Hacc Hout) as (Hres & Htr & _).
  split; [exact Hres | exact Htr].
Defined.

(** C1 does not hold for all flags that contain [GPIO_OUTPUT]: on the valid
    pin 0 of port 000-036, output together with single-ended and no open
    drain is turned down with [-ENOTSUP] and no register is written. *)
Lemma configure_output_open_source :
  Z.land (@valid_ctrl_mask mec1501 port000_036_config) (BIT 0) <> 0 /\
  Z.land 0x202 (@GPIO_OUTPUT mec1501) <> 0 /\
  result (@gpio_xec_configure mec1501 port000_036_config 0 0x202) hw0
  = - @ENOTSUP mec1501 /\
  trace (final (@gpio_xec_configure mec1501 port000_036_config 0 0x202) hw0) = [].
Proof.
  split; [discriminate|]. split; [discriminate|]. split; reflexivity.
Qed.

(** C8: in a call of [gpio_xec_configure] that succeeds, the first word
    stored to the pin's control register has the power-gate field at the
    off encoding if and only if the flags are exactly [GPIO_DISCONNECTED];
    for all other flags the field is cleared. *)
Theorem disconnect_power_gate {HAL : XecHal} (OK : hal_ok HAL)
    (config : gpio_xec_config) (pin fl : Z) (s : hw) :
  result (gpio_xec_configure config pin fl) s = 0 ->
  let p := pcr1_base config + pin in
  let w1 := configure_first_word fl (pcr1 s p) in
  (exists rest,
     trace (final (gpio_xec_configure config pin fl) s)
     = trace s ++ EvWrite (PCR1 p) w1 :: rest) /\
  (Z.land w1 MCHP_GPIO_CTRL_PWRG_MASK = MCHP_GPIO_CTRL_PWRG_OFF
   <-> fl = GPIO_DISCONNECTED) /\
  (fl <> GPIO_DISCONNECTED -> Z.land w1 MCHP_GPIO_CTRL_PWRG_MASK = 0).
Proof.
  intros Hres p w1.
  pose proof (configure_success_inv OK _ _ _ _ Hres) as Hacc.
  destruct (configure_accepted config pin fl s Hacc) as (_ & Htr & _).
  split; [eexists; exact Htr|].
  unfold w1. rewrite first_word_pwrg by assumption.
  pose proof (PWRG_OFF_nonzero _ OK) as Hnz.
  destruct (Z.eqb_spec fl GPIO_DISCONNECTED) as [Heq|Hne].
  - split; [tauto | contradiction].
  - split; [|reflexivity]. split; [congruence | contradiction].
Qed.

Lemma disconnect_power_gate_witness :
  result (@gpio_xec_configure mec1501 port000_036_config 0 0) hw0 = 0 /\
  Z.land (@configure_first_word mec1501 0 (pcr1 hw0 0)) (@MCHP_GPIO_CTRL_PWRG_MASK mec1501)
  = 0x8.
Proof.
  split; [reflexivity|].
  destruct (@disconnect_power_gate mec1501 mec1501_ok port000_036_config 0 0 hw0
              eq_refl) as (_ & [_ Hoff] & _).
  exact (Hoff eq_refl).
Defined.

(** C10: in a call of [gpio_xec_configure] that succeeds, every word stored
    to the pin's control register, and so the word the register holds at the
    end, has in its pull-select field the value the flags alone determine,
    whatever the register held before: the pull-up encoding if
    [GPIO_PULL_UP] is set, else the pull-down encoding if [GPIO_PULL_DOWN] is
    set, else the cleared field. *)
Theorem configure_pull_select {HAL : XecHal} (OK : hal_ok HAL)
    (config : gpio_xec_config) (pin fl : Z) (s : hw) :
  result (gpio_xec_configure config pin fl) s = 0 ->
  let p := pcr1_base config + pin in
  let s' := final (gpio_xec_configure config pin fl) s in
  (forall l1 w l2, trace s' = trace s ++ l1 ++ EvWrite (PCR1 p) w :: l2 ->
   Z.land w MCHP_GPIO_CTRL_PUD_MASK = pull_encoding fl) /\
  (exists w rest, trace s' = trace s ++ EvWrite (PCR1 p) w :: rest) /\
  Z.land (pcr1 s' p) MCHP_GPIO_CTRL_PUD_MASK = pull_encoding fl /\
  (Z.land fl GPIO_PULL_UP <> 0 -> pull_encoding fl = MCHP_GPIO_CTRL_PUD_PU) /\
  (Z.land fl GPIO_PULL_UP = 0 -> Z.land fl GPIO_PULL_DOWN <> 0 ->
   pull_encoding fl = MCHP_GPIO_CTRL_PUD_PD) /\
  (Z.land fl GPIO_PULL_UP = 0 -> Z.land fl GPIO_PULL_DOWN = 0 ->
   pull_encoding fl = 0).
Proof.
  intros Hres p s'.
  pose proof (configure_success_inv OK _ _ _ _ Hres) as Hacc.
  destruct (configure_accepted config pin fl s Hacc) as (_ & Htr & Hreg).
  fold p in Htr, Hreg. fold s' in Htr, Hreg.
  assert (H1 : Z.land (configure_first_word fl (pcr1 s p)) MCHP_GPIO_CTRL_PUD_MASK
               = pull_encoding fl) by (apply first_word_pud; assumption).
  assert (H2 : Z.land (configure_second_word (configure_first_word fl (pcr1 s p)))
                 MCHP_GPIO_CTRL_PUD_MASK = pull_encoding fl)
    by (rewrite second_word_pud by assumption; exact H1).
  split; [|split; [|split; [|split; [|split]]]].
  - intros l1 w l2 Heq. rewrite Htr in Heq. apply app_inv_head in Heq.
    unfold configure_preload, GPIO_OUT_BASE in Heq.
    destruct (is_set fl GPIO_OUTPUT);
      [destruct (is_set fl GPIO_OUTPUT_INIT_HIGH);
         [|destruct (is_set fl GPIO_OUTPUT_INIT_LOW)]|];
      simpl in Heq; symmetry in Heq; split_trace Heq l1.
  - eexists. eexists. exact Htr.
  - rewrite Hreg. destruct (is_set fl GPIO_OUTPUT); assumption.
  - intros Hu. unfold pull_encoding. apply is_set_true in Hu. rewrite Hu. reflexivity.
  - intros Hu Hd. unfold pull_encoding. apply is_set_false in Hu.
    apply is_set_true in Hd. rewrite Hu, Hd. reflexivity.
  - intros Hu Hd. unfold pull_encoding. apply is_set_false in Hu, Hd.
    rewrite Hu, Hd. reflexivity.
Qed.

Lemma configure_pull_select_witness :
  result (@gpio_xec_configure mec1501 port000_036_config 0 0x230) hw0 = 0 /\
  Z.land (pcr1 (final (@gpio_xec_configure mec1501 port000_036_config 0 0x230) hw0) 0)
         (@MCHP_GPIO_CTRL_PUD_MASK mec1501)
  = @pull_encoding mec1501 0x230 /\
  @pull_encoding mec1501 0x230 = @MCHP_GPIO_CTRL_PUD_PU mec1501.
Proof.
  split; [reflexivity|].
  destruct (@configure_pull_select mec1501 mec1501_ok port000_036_config 0 0x230 hw0
              eq_refl) as (_ & _ & Hreg & Hup & _).
  split; [exact Hreg|]. apply Hup. discriminate.
Defined.

(** ** Interrupt configuration *)

(** C4: in a call of [gpio_xec_pin_interrupt_configure] that succeeds, the
    events are, in this order: the store of the pin's bit to the
    aggregator's enable-clear register, the read-modify-write that commits
    the detection field to the pin's control register, the memory barrier,
    and, when the mode is not disabled, the store that clears the pin's
    source bit followed by the store of the pin's bit to the enable-set
    register.  So a store to enable-set has the committed detection field,
    the barrier and the source clear before it and nothing after it, and the
    store to the control register has the enable-clear store before it. *)
Theorem interrupt_enable_ordering {HAL : XecHal} (OK : hal_ok HAL)
    (config : gpio_xec_config) (pin mode trig : Z) (s : hw) :
  result (gpio_xec_pin_interrupt_configure config pin mode trig) s = 0 ->
  let id := girq_id config in
  let p := pcr1_base config + pin in
  let w := interrupt_word mode trig (pcr1 s p) in
  let disable := EvWrite (GIRQ_ENCLR id) (BIT pin) in
  let commit := EvWrite (PCR1 p) w in
  let clear := EvWrite (GIRQ_SRC id) (BIT pin) in
  let enable := EvWrite (GIRQ_ENSET id) (BIT pin) in
  let new := [disable; commit; EvDmb]
               ++ (if mode =? GPIO_INT_MODE_DISABLED then [] else [clear; enable]) in
  trace (final (gpio_xec_pin_interrupt_configure config pin mode trig) s)
  = trace s ++ new /\
  Z.land w MCHP_GPIO_CTRL_IDET_MASK = idet_encoding mode trig /\
  (mode <> GPIO_INT_MODE_DISABLED ->
   new = [disable; commit; EvDmb; clear; enable]) /\
  (forall l1 r v l2, new = l1 ++ EvWrite r v :: l2 ->
   (exists id', r = GIRQ_ENSET id') ->
   mode <> GPIO_INT_MODE_DISABLED /\
   l1 = [disable; commit; EvDmb; clear] /\ EvWrite r v = enable /\ l2 = []) /\
  (forall l1 q v l2, new = l1 ++ EvWrite (PCR1 q) v :: l2 ->
   l1 = [disable] /\ EvWrite (PCR1 q) v = commit).
Proof.
  intros Hres id p w disable commit clear enable new.
  destruct (interrupt_success_inv OK _ _ _ _ _ Hres) as [Hacc Htrig].
  destruct (interrupt_accepted config pin mode trig s Hacc Htrig) as (_ & Htr & _).
  split; [exact Htr|].
  split; [apply interrupt_word_idet; assumption|].
  subst new.
  destruct (Z.eqb_spec mode GPIO_INT_MODE_DISABLED) as [Hd|Hd]; simpl.
  - split; [contradiction|]. split.
    + intros l1 r v l2 Heq [id' ->]. split_trace Heq l1.
    + intros l1 q v l2 Heq. split_trace Heq l1.
  - split; [reflexivity|]. split.
    + intros l1 r v l2 Heq [id' ->]. split_trace Heq l1.
    + intros l1 q v l2 Heq. split_trace Heq l1.
Qed.

Lemma interrupt_enable_ordering_witness :
  result (@gpio_xec_pin_interrupt_configure mec1501 port000_036_config
            3 0x14000 0x60000) hw0 = 0 /\
  trace (final (@gpio_xec_pin_interrupt_configure mec1501 port000_036_config
                  3 0x14000 0x60000) hw0)
  = [EvWrite (GIRQ_ENCLR 11) 8; EvWrite (PCR1 3) 0xF0; EvDmb;
     EvWrite (GIRQ_SRC 11) 8; EvWrite (GIRQ_ENSET 11) 8].
Proof.
  split; [reflexivity|].
  destruct (@interrupt_enable_ordering mec1501 mec1501_ok port000_036_config
              3 0x14000 0x60000 hw0 eq_refl) as (Htr & _).
  exact Htr.
Defined.

(** C6: for every pin in the port's bitmap and every trigger,
    [gpio_xec_pin_interrupt_configure] with mode disabled succeeds and
    stores to the pin's control register a word whose detection field is
    the explicit disabled encoding, which is not the level-low encoding the
    field has after reset; the register holds that word afterwards, and
    the enable-set register is not written. *)
Theorem interrupt_disable_explicit {HAL : XecHal} (OK : hal_ok HAL)
    (config : gpio_xec_config) (pin trig : Z) (s : hw) :
  Z.land (valid_ctrl_mask config) (BIT pin) <> 0 ->
  let id := girq_id config in
  let p := pcr1_base config + pin in
  let w := interrupt_word GPIO_INT_MODE_DISABLED trig (pcr1 s p) in
  let s' := final (gpio_xec_pin_interrupt_configure config pin
                     GPIO_INT_MODE_DISABLED trig) s in
  result (gpio_xec_pin_interrupt_configure config pin GPIO_INT_MODE_DISABLED trig) s
  = 0 /\
  trace s' = trace s ++ [EvWrite (GIRQ_ENCLR id) (BIT pin); EvWrite (PCR1 p) w; EvDmb] /\
  pcr1 s' p = w /\
  Z.land w MCHP_GPIO_CTRL_IDET_MASK = MCHP_GPIO_CTRL_IDET_DISABLE /\
  Z.land w MCHP_GPIO_CTRL_IDET_MASK <> MCHP_GPIO_CTRL_IDET_LVL_LO.
Proof.
  intros Hv id p w s'.
  assert (Hacc : interrupt_accepts config pin GPIO_INT_MODE_DISABLED)
    by (split; [assumption | left; reflexivity]).
  assert (Htrig : trigger_accepted GPIO_INT_MODE_DISABLED trig)
    by (left; reflexivity).
  destruct (interrupt_accepted config pin _ trig s Hacc Htrig) as (Hres & Htr & Hreg).
  rewrite Z.eqb_refl in Htr.
  assert (Hw : Z.land w MCHP_GPIO_CTRL_IDET_MASK = MCHP_GPIO_CTRL_IDET_DISABLE).
  { unfold w. rewrite interrupt_word_idet by assumption.
    unfold idet_encoding. rewrite Z.eqb_refl. reflexivity. }
  split; [exact Hres|]. split; [exact Htr|]. split; [exact Hreg|].
  split; [exact Hw|]. rewrite Hw. apply (IDET_DISABLE_not_default _ OK).
Qed.

Lemma interrupt_disable_explicit_witness :
  Z.land (@valid_ctrl_mask mec1501 port000_036_noirq_config) (BIT 4) <> 0 /\
  result (@gpio_xec_pin_interrupt_configure mec1501 port000_036_noirq_config
            4 0x2000 0x40000) hw0 = 0 /\
  trace (final (@gpio_xec_pin_interrupt_configure mec1501 port000_036_noirq_config
                  4 0x2000 0x40000) hw0)
  = [EvWrite (GIRQ_ENCLR 0) 0x10; EvWrite (PCR1 4) 0x40; EvDmb].
Proof.
  assert (Hv : Z.land (@valid_ctrl_mask mec1501 port000_036_noirq_config) (BIT 4) <> 0)
    by discriminate.
  split; [exact Hv|].
  destruct (@interrupt_disable_explicit mec1501 mec1501_ok port000_036_noirq_config
              4 0x40000 hw0 Hv) as (Hres & Htr & _).
  split; [exact Hres | exact Htr].
Defined.

(** ** Bulk port operations *)

(** C9: for every value of the port's output register and every mask,
    [gpio_xec_port_toggle_bits] applied twice with the same mask leaves the
    output register, as every other output register, at the value it had;
    both calls return 0. *)
Theorem toggle_bits_twice
    (config : gpio_xec_config) (mask : Z) (s : hw) :
  let s1 := final (gpio_xec_port_toggle_bits config mask) s in
  let s2 := final (gpio_xec_port_toggle_bits config mask) s1 in
  result (gpio_xec_port_toggle_bits config mask) s = 0 /\
  result (gpio_xec_port_toggle_bits config mask) s1 = 0 /\
  parout s1 (port_num config) = Z.lxor (parout s (port_num config)) mask /\
  parout s2 (port_num config) = parout s (port_num config) /\
  (forall n, parout s2 n = parout s n).
Proof.
  intros s1 s2.
  assert (Hinv : forall a, Z.lxor (Z.lxor a mask) mask = a).
  { intros a. rewrite Z.lxor_assoc, Z.lxor_nilpotent. apply Z.lxor_0_r. }
  subst s2 s1. unfold result, final, gpio_xec_port_toggle_bits, GPIO_OUT_BASE,
    bind, read, write, ret. simpl.
  split; [reflexivity|]. split; [reflexivity|].
  rewrite !upd_same. split; [reflexivity|]. split; [apply Hinv|].
  intros n. unfold upd.
  destruct (Z.eqb_spec n (port_num config)) as [->|Hne]; [apply Hinv | reflexivity].
Qed.

(** ** Interrupt dispatch *)

(** C5: with [R] the aggregator's result register at entry,
    [gpio_gpio_xec_port_isr] stores [R] to the source register, which clears
    exactly the bits of [R] there, and only then invokes, in registry
    order, the handlers of the callback entries whose mask intersects [R],
    and no other; every invoked handler is passed [R] itself. *)
Theorem isr_dispatch
    (config : gpio_xec_config) (data : gpio_xec_data) (s : hw) :
  let id := girq_id config in
  let R := load (GIRQ_RESULT id) s in
  let s' := final (gpio_gpio_xec_port_isr config data) s in
  let calls :=
    map (fun cb => EvCall cb R)
        (filter (fun cb => is_set (pin_mask cb) R) (callbacks data)) in
  trace s' = trace s ++ EvWrite (GIRQ_SRC id) R :: calls /\
  girq_src s' id = Z.land (girq_src s id) (not32 R) /\
  (forall i, 0 <= i < 32 ->
   Z.testbit (girq_src s' id) i
   = Z.testbit (girq_src s id) i && negb (Z.testbit R i)) /\
  (forall cb v, In (EvCall cb v) calls
   <-> In cb (callbacks data) /\ Z.land (pin_mask cb) R <> 0 /\ v = R).
Proof.
  intros id R s' calls.
  set (s1 := log (EvWrite (GIRQ_SRC id) R) (store (GIRQ_SRC id) R s)).
  assert (Hs' : s' = final (gpio_fire_callbacks (callbacks data) R) s1)
    by reflexivity.
  assert (Hsrc : girq_src s' id = Z.land (girq_src s id) (not32 R)).
  { destruct (fire_callbacks_registers (callbacks data) R s1) as (_ & _ & _ & _ & H).
    rewrite Hs', H. simpl. apply upd_same. }
  split; [|split; [|split]].
  - rewrite Hs', fire_callbacks_trace. simpl.
    rewrite <- app_assoc. reflexivity.
  - exact Hsrc.
  - intros i Hi. rewrite Hsrc, Z.land_spec, not32_spec by lia.
    replace (i <? 32) with true by (symmetry; apply Z.ltb_lt; lia).
    rewrite andb_true_r. reflexivity.
  - intros cb v. unfold calls. rewrite in_map_iff. split.
    + intros (cb' & Heq & Hin). injection Heq as -> ->.
      apply filter_In in Hin. destruct Hin as [Hin Hset].
      apply is_set_true in Hset. auto.
    + intros (Hin & Hset & ->). exists cb. split; [reflexivity|].
      apply filter_In. split; [assumption | apply is_set_true; assumption].
Qed.

(** The routine on aggregator 11 with sources 0, 2, 4 and 5 latched and
    sources 0 to 3 enabled: the result is 5, it is stored to the source
    register first, and of three registered callbacks the two whose masks
    meet it are called with 5. *)
Example isr_dispatch_example :
  let data :=
    {| callbacks := [ {| handler := 1; pin_mask := 0x1 |};
                      {| handler := 2; pin_mask := 0x2 |};
                      {| handler := 3; pin_mask := 0x6 |} ] |} in
  let s' := final (gpio_gpio_xec_port_isr port000_036_config data)
                  hw_pending in
  trace s'
  = [EvWrite (GIRQ_SRC 11) 5;
     EvCall {| handler := 1; pin_mask := 0x1 |} 5;
     EvCall {| handler := 3; pin_mask := 0x6 |} 5] /\
  girq_src s' 11 = 0x30.
Proof. split; reflexivity. Qed.

(** * Further properties of the driver *)

(** ** Words stay words *)

Lemma word32_bits (x : Z) :
  0 <= x -> (forall i, 32 <= i -> Z.testbit x i = false) -> word32 x.
Proof.
  intros Hnn Hhigh. split; [assumption|].
  destruct (Z.eq_dec x 0) as [->|Hne]; [reflexivity|].
  apply Z.log2_lt_pow2; [lia|].
  destruct (Z_lt_le_dec (Z.log2 x) 32) as [|Hge]; [assumption|].
  assert (Hb : Z.testbit x (Z.log2 x) = true) by (apply Z.bit_log2; lia).
  rewrite Hhigh in Hb by assumption. discriminate.
Qed.

Lemma word32_wrap32 (x : Z) : word32 (wrap32 x).
Proof.
  apply word32_bits.
  - unfold wrap32. apply Z.land_nonneg. right. change (0 <= 4294967295). lia.
  - intros i Hi. rewrite wrap32_spec by lia.
    replace (i <? 32) with false by (symmetry; apply Z.ltb_ge; lia).
    apply andb_false_r.
Qed.

Lemma word32_not32 (x : Z) : word32 (not32 x).
Proof. apply word32_wrap32. Qed.

Lemma word32_BIT (n : Z) : word32 (BIT n).
Proof. apply word32_wrap32. Qed.

Lemma word32_land_r (x y : Z) : word32 y -> word32 (Z.land x y).
Proof.
  intros Hy. apply word32_bits.
  - apply Z.land_nonneg. right. apply Hy.
  - intros i Hi. rewrite Z.land_spec, (word32_high_bit y i Hy Hi).
    apply andb_false_r.
Qed.

Lemma word32_land_l (x y : Z) : word32 x -> word32 (Z.land x y).
Proof. intros Hx. rewrite Z.land_comm. apply word32_land_r. assumption. Qed.

Lemma word32_lor (x y : Z) : word32 x -> word32 y -> word32 (Z.lor x y).
Proof.
  intros Hx Hy. apply word32_bits.
  - apply Z.lor_nonneg. split; [apply Hx | apply Hy].
  - intros i Hi.
    rewrite Z.lor_spec, (word32_high_bit x i Hx Hi), (word32_high_bit y i Hy Hi).
    reflexivity.
Qed.

Lemma word32_lxor (x y : Z) : word32 x -> word32 y -> word32 (Z.lxor x y).
Proof.
  intros Hx Hy. apply word32_bits.
  - apply Z.lxor_nonneg. split; intros _; [apply Hy | apply Hx].
  - intros i Hi.
    rewrite Z.lxor_spec, (word32_high_bit x i Hx Hi), (word32_high_bit y i Hy Hi).
    reflexivity.
Qed.

Lemma word32_0 : word32 0.
Proof. unfold word32. lia. Qed.

Lemma word32_inside (v F : Z) : word32 F -> Z.land v F = v -> word32 v.
Proof. intros HF Hin. rewrite <- Hin. apply word32_land_r. assumption. Qed.

Lemma word32_rmw (old mask v : Z) : word32 v -> word32 (rmw old mask v).
Proof.
  intros Hv. unfold rmw. apply word32_lor; [|assumption].
  apply word32_land_r. apply word32_not32.
Qed.

(** ** The read-modify-write as a function of the old word *)

Lemma rmw_spec (old mask v i : Z) :
  0 <= i ->
  Z.testbit (rmw old mask v) i
  = Z.testbit old i && (negb (Z.testbit mask i) && (i <? 32)) || Z.testbit v i.
Proof.
  intros Hi. unfold rmw. rewrite Z.lor_spec, Z.land_spec, not32_spec by lia.
  reflexivity.
Qed.

(** Writing the same fields again changes nothing. *)
Lemma rmw_idempotent (old mask v : Z) :
  rmw (rmw old mask v) mask v = rmw old mask v.
Proof.
  apply Z.bits_inj'. intros i Hi. rewrite !rmw_spec by lia.
  destruct (Z.testbit old i), (Z.testbit mask i), (i <? 32), (Z.testbit v i);
    reflexivity.
Qed.

(** Nor does repeating a pair of them. *)
Lemma rmw_pair_idempotent (old m1 v1 m2 v2 : Z) :
  rmw (rmw (rmw (rmw old m1 v1) m2 v2) m1 v1) m2 v2 = rmw (rmw old m1 v1) m2 v2.
Proof.
  apply Z.bits_inj'. intros i Hi. rewrite !rmw_spec by lia.
  destruct (Z.testbit old i), (Z.testbit m1 i), (Z.testbit m2 i), (i <? 32),
    (Z.testbit v1 i), (Z.testbit v2 i); reflexivity.
Qed.

Lemma lor_BIT_other (o pin i : Z) :
  0 <= i -> i <> pin -> Z.testbit (Z.lor o (BIT pin)) i = Z.testbit o i.
Proof.
  intros Hi Hne. rewrite Z.lor_spec, BIT_spec by lia.
  replace (i =? pin) with false by (symmetry; apply Z.eqb_neq; assumption).
  apply orb_false_r.
Qed.

Lemma land_not_BIT_other (o pin i : Z) :
  0 <= i < 32 -> i <> pin ->
  Z.testbit (Z.land o (not32 (BIT pin))) i = Z.testbit o i.
Proof.
  intros Hi Hne. rewrite Z.land_spec, not32_spec, BIT_spec by lia.
  replace (i =? pin) with false by (symmetry; apply Z.eqb_neq; assumption).
  replace (i <? 32) with true by (symmetry; apply Z.ltb_lt; lia).
  simpl. apply andb_true_r.
Qed.

(** Compares two register banks that differ by updates, key by key. *)
Ltac upd_cases :=
  repeat split; try reflexivity;
  let k := fresh "k" in
  intros k; unfold upd;
  match goal with
  | |- context [k =? ?a] => destruct (Z.eqb_spec k a) as [->|]
  end;
  rewrite ?Z.eqb_refl; reflexivity.

Section FinalRegisters.

Context {HAL : XecHal}.

(** The registers after a call of [gpio_xec_configure] that passes the
    checks. *)
Lemma configure_final_registers (config : gpio_xec_config) (pin fl : Z) (s : hw) :
  configure_accepts config pin fl ->
  let p := pcr1_base config + pin in
  let n := port_num config in
  let s' := final (gpio_xec_configure config pin fl) s in
  (forall q, pcr1 s' q
             = if q =? p then configure_final_word fl (pcr1 s p) else pcr1 s q) /\
  (forall m, parout s' m
             = if m =? n then configure_out_word pin fl (parout s n) else parout s m) /\
  parin s' = parin s /\ girq_en s' = girq_en s /\ girq_src s' = girq_src s.
Proof.
  intros [Hv Hmode] p n s'. subst s' p n.
  unfold final, gpio_xec_configure, configure_final_word, configure_out_word.
  apply Z.eqb_neq in Hv. rewrite Hv.
  replace (is_set fl GPIO_SINGLE_ENDED && (Z.land fl GPIO_LINE_OPEN_DRAIN =? 0))
    with false.
  2:{ symmetry. destruct Hmode as [H|H].
      - apply is_set_false in H. rewrite H. reflexivity.
      - apply Z.eqb_neq in H. rewrite H. apply andb_false_r. }
  fold (configure_first_word fl (pcr1 s (pcr1_base config + pin))).
  unfold bind, read, write, ret, GPIO_OUT_BASE; simpl.
  destruct (is_set fl GPIO_OUTPUT); simpl;
    [destruct (is_set fl GPIO_OUTPUT_INIT_HIGH); simpl;
       [|destruct (is_set fl GPIO_OUTPUT_INIT_LOW); simpl]|];
    rewrite ?upd_same;
    fold (configure_second_word (configure_first_word fl (pcr1 s (pcr1_base config + pin))));
    (split;
     [intros k; unfold upd;
      destruct (Z.eqb_spec k (pcr1_base config + pin)) as [->|]; reflexivity
     |split; [|auto]; intros k; unfold upd;
      destruct (Z.eqb_spec k (port_num config)) as [->|]; reflexivity]).
Qed.

(** The registers after a call of [gpio_xec_pin_interrupt_configure] that
    passes the checks and finds an encoding. *)
Lemma interrupt_final_registers
    (config : gpio_xec_config) (pin mode trig : Z) (s : hw) :
  interrupt_accepts config pin mode ->
  trigger_accepted mode trig ->
  let p := pcr1_base config + pin in
  let id := girq_id config in
  let s' := final (gpio_xec_pin_interrupt_configure config pin mode trig) s in
  (forall q, pcr1 s' q
             = if q =? p then interrupt_word mode trig (pcr1 s p) else pcr1 s q) /\
  parout s' = parout s /\ parin s' = parin s /\
  (forall k, girq_en s' k
             = if k =? id then interrupt_enable_word pin mode (girq_en s id)
               else girq_en s k) /\
  (forall k, girq_src s' k
             = if k =? id then interrupt_source_word pin mode (girq_src s id)
               else girq_src s k).
Proof.
  intros Hacc Htrig p id s'. subst s' p id.
  destruct (interrupt_checks_pass _ _ _ Hacc) as [Hv Hcap].
  unfold final, gpio_xec_pin_interrupt_configure, interrupt_word, idet_encoding,
    interrupt_enable_word, interrupt_source_word.
  rewrite Hv, Hcap.
  unfold bind, read, write, dmb, ret, MCHP_GIRQ_SRC_CLR.
  destruct (mode =? GPIO_INT_MODE_DISABLED) eqn:Hd; simpl.
  { upd_cases. }
  destruct (mode =? GPIO_INT_MODE_LEVEL) eqn:Hl; simpl.
  { destruct (trig =? GPIO_INT_TRIG_HIGH); simpl; upd_cases. }
  destruct (trig =? GPIO_INT_TRIG_LOW) eqn:Hlo; simpl.
  { upd_cases. }
  destruct (trig =? GPIO_INT_TRIG_HIGH) eqn:Hhi; simpl.
  { upd_cases. }
  destruct (trig =? GPIO_INT_TRIG_BOTH) eqn:Hbo; simpl.
  { upd_cases. }
  exfalso. unfold trigger_accepted in Htrig.
  apply Z.eqb_neq in Hd, Hl, Hlo, Hhi, Hbo. tauto.
Qed.

End FinalRegisters.

Section ConfigureMore.

Context {HAL : XecHal}.

Lemma configure_first_word_rmw (fl : Z) :
  exists M V, forall old, configure_first_word fl old = rmw old M V.
Proof. eexists. eexists. intros old. reflexivity. Qed.

Lemma configure_final_word_idempotent (fl old : Z) :
  configure_final_word fl (configure_final_word fl old)
  = configure_final_word fl old.
Proof.
  unfold configure_final_word.
  destruct (configure_first_word_rmw fl) as (M & V & HF).
  destruct (is_set fl GPIO_OUTPUT).
  - rewrite !HF. unfold configure_second_word.
    apply (rmw_pair_idempotent old M V MCHP_GPIO_CTRL_DIR_MASK
             MCHP_GPIO_CTRL_DIR_OUTPUT).
  - rewrite !HF. apply rmw_idempotent.
Qed.

Lemma configure_out_word_idempotent (pin fl o : Z) :
  configure_out_word pin fl (configure_out_word pin fl o)
  = configure_out_word pin fl o.
Proof.
  unfold configure_out_word.
  destruct (is_set fl GPIO_OUTPUT); [|reflexivity].
  destruct (is_set fl GPIO_OUTPUT_INIT_HIGH).
  - rewrite <- Z.lor_assoc, Z.lor_diag. reflexivity.
  - destruct (is_set fl GPIO_OUTPUT_INIT_LOW); [|reflexivity].
    rewrite <- Z.land_assoc, Z.land_diag. reflexivity.
Qed.

Lemma first_word_buft (OK : hal_ok HAL) (fl old : Z) :
  Z.land (configure_first_word fl old) MCHP_GPIO_CTRL_BUFT_MASK
  = buffer_encoding fl.
Proof.
  hal_facts OK. unfold configure_first_word, buffer_encoding.
  rewrite rmw_field by in_mask.
  destruct (is_set fl GPIO_PULL_UP), (is_set fl GPIO_PULL_DOWN),
    (is_set fl GPIO_OPEN_DRAIN), (fl =? GPIO_DISCONNECTED);
    extract_field MCHP_GPIO_CTRL_BUFT_MASK; reflexivity.
Qed.

Lemma first_word_inpad (OK : hal_ok HAL) (fl old : Z) :
  Z.land (configure_first_word fl old) MCHP_GPIO_CTRL_INPAD_DIS_MASK = 0.
Proof.
  hal_facts OK. unfold configure_first_word.
  rewrite rmw_field by in_mask.
  destruct (is_set fl GPIO_PULL_UP), (is_set fl GPIO_PULL_DOWN),
    (is_set fl GPIO_OPEN_DRAIN), (fl =? GPIO_DISCONNECTED);
    extract_field MCHP_GPIO_CTRL_INPAD_DIS_MASK; reflexivity.
Qed.

Lemma first_word_keeps_idet (OK : hal_ok HAL) (fl old : Z) :
  Z.land (configure_first_word fl old) MCHP_GPIO_CTRL_IDET_MASK
  = Z.land old MCHP_GPIO_CTRL_IDET_MASK.
Proof.
  hal_facts OK. unfold configure_first_word.
  apply rmw_keep; [assumption | |].
  - rewrite !Z.land_lor_distr_l.
    repeat match goal with
           | H : Z.land ?a MCHP_GPIO_CTRL_IDET_MASK = 0 |- _ => rewrite H; clear H
           end.
    reflexivity.
  - destruct (is_set fl GPIO_PULL_UP), (is_set fl GPIO_PULL_DOWN),
      (is_set fl GPIO_OPEN_DRAIN), (fl =? GPIO_DISCONNECTED);
      extract_field MCHP_GPIO_CTRL_IDET_MASK; reflexivity.
Qed.

End ConfigureMore.

(** ** More on pin configuration *)

(** X1: a call of [gpio_xec_configure] that passes the checks and whose flags
    do not contain [GPIO_OUTPUT] succeeds with a single register write, the
    read-modify-write of the pin's control register, which leaves the pin an
    input; no output register is written, whatever initial level the flags
    name. *)
Theorem configure_without_output {HAL : XecHal} (OK : hal_ok HAL)
    (config : gpio_xec_config) (pin fl : Z) (s : hw) :
  configure_accepts config pin fl ->
  Z.land fl GPIO_OUTPUT = 0 ->
  let p := pcr1_base config + pin in
  let s' := final (gpio_xec_configure config pin fl) s in
  result (gpio_xec_configure config pin fl) s = 0 /\
  trace s' = trace s ++ [EvWrite (PCR1 p) (configure_first_word fl (pcr1 s p))] /\
  pcr1 s' p = configure_first_word fl (pcr1 s p) /\
  Z.land (pcr1 s' p) MCHP_GPIO_CTRL_DIR_MASK = MCHP_GPIO_CTRL_DIR_INPUT /\
  (forall m, parout s' m = parout s m).
Proof.
  intros Hacc Hout p s'.
  destruct (configure_accepted config pin fl s Hacc) as (Hres & Htr & Hreg).
  destruct (configure_final_registers config pin fl s Hacc) as (_ & Hpo & _).
  apply is_set_false in Hout. rewrite Hout in Htr, Hreg.
  split; [exact Hres|]. split; [exact Htr|]. split; [exact Hreg|].
  split.
  - unfold s', p. rewrite Hreg. apply first_word_dir. assumption.
  - intros m. unfold s'. rewrite Hpo. unfold configure_out_word. rewrite Hout.
    destruct (Z.eqb_spec m (port_num config)) as [->|]; reflexivity.
Qed.

Lemma configure_without_output_witness :
  @configure_accepts mec1501 port000_036_config 0 0x810 /\
  Z.land 0x810 (@GPIO_OUTPUT mec1501) = 0 /\
  trace (final (@gpio_xec_configure mec1501 port000_036_config 0 0x810) hw0)
  = [EvWrite (PCR1 0) 0x401].
Proof.
  assert (Hacc : @configure_accepts mec1501 port000_036_config 0 0x810)
    by (split; [discriminate | left; reflexivity]).
  split; [exact Hacc|]. split; [reflexivity|].
  destruct (@configure_without_output mec1501 mec1501_ok port000_036_config
              0 0x810 hw0 Hacc eq_refl) as (_ & Htr & _).
  exact Htr.
Defined.

(** X2: after a call of [gpio_xec_configure] that passes the checks, the
    pin's control register has direction = output if the flags contain
    [GPIO_OUTPUT] and input otherwise, AOD disabled, the input-pad-disable
    field cleared, and the drive buffer open drain if the flags meet
    [GPIO_OPEN_DRAIN] and push-pull otherwise, whatever it held before. *)
Theorem configure_final_fields {HAL : XecHal} (OK : hal_ok HAL)
    (config : gpio_xec_config) (pin fl : Z) (s : hw) :
  configure_accepts config pin fl ->
  let p := pcr1_base config + pin in
  let w := pcr1 (final (gpio_xec_configure config pin fl) s) p in
  Z.land w MCHP_GPIO_CTRL_DIR_MASK
  = (if is_set fl GPIO_OUTPUT then MCHP_GPIO_CTRL_DIR_OUTPUT
     else MCHP_GPIO_CTRL_DIR_INPUT) /\
  Z.land w MCHP_GPIO_CTRL_AOD_MASK = MCHP_GPIO_CTRL_AOD_DIS /\
  Z.land w MCHP_GPIO_CTRL_INPAD_DIS_MASK = 0 /\
  Z.land w MCHP_GPIO_CTRL_BUFT_MASK
  = (if is_set fl GPIO_OPEN_DRAIN then MCHP_GPIO_CTRL_BUFT_OPENDRAIN
     else MCHP_GPIO_CTRL_BUFT_PUSHPULL).
Proof.
  intros Hacc p w.
  destruct (configure_accepted config pin fl s Hacc) as (_ & _ & Hreg).
  subst w p. rewrite Hreg. clear Hreg.
  pose proof (first_word_dir OK fl (pcr1 s (pcr1_base config + pin))) as Hdir.
  pose proof (first_word_aod OK fl (pcr1 s (pcr1_base config + pin))) as Haod.
  pose proof (first_word_inpad OK fl (pcr1 s (pcr1_base config + pin))) as Hin.
  pose proof (first_word_buft OK fl (pcr1 s (pcr1_base config + pin))) as Hbuf.
  unfold buffer_encoding in Hbuf.
  destruct (is_set fl GPIO_OUTPUT); [|auto].
  hal_facts OK.
  split; [apply second_word_dir; assumption|].
  rewrite !(second_word_keeps OK) by assumption. auto.
Qed.

Lemma configure_final_fields_witness :
  @configure_accepts mec1501 port000_036_config 0 0x206 /\
  Z.land (pcr1 (final (@gpio_xec_configure mec1501 port000_036_config 0 0x206) hw0) 0)
         (@MCHP_GPIO_CTRL_BUFT_MASK mec1501)
  = @MCHP_GPIO_CTRL_BUFT_OPENDRAIN mec1501.
Proof.
  assert (Hacc : @configure_accepts mec1501 port000_036_config 0 0x206)
    by (split; [discriminate | right; discriminate]).
  split; [exact Hacc|].
  destruct (@configure_final_fields mec1501 mec1501_ok port000_036_config
              0 0x206 hw0 Hacc) as (_ & _ & _ & Hbuf).
  exact Hbuf.
Defined.

(** X3: [gpio_xec_configure] is idempotent on the registers: a second call
    with the same pin and flags after one that passed the checks succeeds
    too and leaves every control, output, input and aggregator register as
    the first call left it. *)
Theorem configure_idempotent {HAL : XecHal}
    (config : gpio_xec_config) (pin fl : Z) (s : hw) :
  configure_accepts config pin fl ->
  let s1 := final (gpio_xec_configure config pin fl) s in
  let s2 := final (gpio_xec_configure config pin fl) s1 in
  result (gpio_xec_configure config pin fl) s1 = 0 /\
  (forall q, pcr1 s2 q = pcr1 s1 q) /\
  (forall m, parout s2 m = parout s1 m) /\
  parin s2 = parin s1 /\ girq_en s2 = girq_en s1 /\ girq_src s2 = girq_src s1.
Proof.
  intros Hacc s1 s2.
  destruct (configure_final_registers config pin fl s Hacc)
    as (Hp1 & Ho1 & _).
  destruct (configure_final_registers config pin fl s1 Hacc)
    as (Hp2 & Ho2 & Hin & Hen & Hsrc).
  fold s1 in Hp1, Ho1. fold s2 in Hp2, Ho2, Hin, Hen, Hsrc.
  split; [apply (configure_accepted config pin fl s1 Hacc)|].
  split; [|split; [|auto]].
  - intros q. rewrite Hp2.
    destruct (Z.eqb_spec q (pcr1_base config + pin)) as [->|]; [|reflexivity].
    rewrite !Hp1, Z.eqb_refl. apply configure_final_word_idempotent.
  - intros m. rewrite Ho2.
    destruct (Z.eqb_spec m (port_num config)) as [->|]; [|reflexivity].
    rewrite !Ho1, Z.eqb_refl. apply configure_out_word_idempotent.
Qed.

Lemma configure_idempotent_witness :
  @configure_accepts mec1501 port000_036_config 0 0xA10 /\
  pcr1 (final (@gpio_xec_configure mec1501 port000_036_config 0 0xA10)
          (final (@gpio_xec_configure mec1501 port000_036_config 0 0xA10) hw0)) 0
  = pcr1 (final (@gpio_xec_configure mec1501 port000_036_config 0 0xA10) hw0) 0.
Proof.
  assert (Hacc : @configure_accepts mec1501 port000_036_config 0 0xA10)
    by (split; [discriminate | left; reflexivity]).
  split; [exact Hacc|].
  destruct (@configure_idempotent mec1501 port000_036_config 0 0xA10 hw0 Hacc)
    as (_ & Hp & _).
  exact (Hp 0).
Defined.

(** X4: a call of [gpio_xec_configure] that passes the checks changes
    nothing but the pin's own control register and the pin's own bit of the
    port's output register: every other control register, every other bit
    of that output register, the output registers of the other ports, the
    input registers and the aggregator are as before. *)
Theorem configure_frame {HAL : XecHal}
    (config : gpio_xec_config) (pin fl : Z) (s : hw) :
  configure_accepts config pin fl ->
  let p := pcr1_base config + pin in
  let n := port_num config in
  let s' := final (gpio_xec_configure config pin fl) s in
  (forall q, q <> p -> pcr1 s' q = pcr1 s q) /\
  (forall i, 0 <= i < 32 -> i <> pin ->
   Z.testbit (parout s' n) i = Z.testbit (parout s n) i) /\
  (forall m, m <> n -> parout s' m = parout s m) /\
  parin s' = parin s /\ girq_en s' = girq_en s /\ girq_src s' = girq_src s.
Proof.
  intros Hacc p n s'.
  destruct (configure_final_registers config pin fl s Hacc)
    as (Hp & Ho & Hin & Hen & Hsrc).
  fold s' in Hp, Ho, Hin, Hen, Hsrc. fold p in Hp. fold n in Ho.
  split; [|split; [|split; [|auto]]].
  - intros q Hq. rewrite Hp. apply Z.eqb_neq in Hq. rewrite Hq. reflexivity.
  - intros i Hi Hne. rewrite Ho, Z.eqb_refl. unfold configure_out_word.
    destruct (is_set fl GPIO_OUTPUT); [|reflexivity].
    destruct (is_set fl GPIO_OUTPUT_INIT_HIGH); [apply lor_BIT_other; lia|].
    destruct (is_set fl GPIO_OUTPUT_INIT_LOW); [|reflexivity].
    apply land_not_BIT_other; assumption.
  - intros m Hm. rewrite Ho. apply Z.eqb_neq in Hm. rewrite Hm. reflexivity.
Qed.

Lemma configure_frame_witness :
  @configure_accepts mec1501 port000_036_config 2 0xA00 /\
  pcr1 (final (@gpio_xec_configure mec1501 port000_036_config 2 0xA00) hw_pending) 3
  = pcr1 hw_pending 3.
Proof.
  assert (Hacc : @configure_accepts mec1501 port000_036_config 2 0xA00)
    by (split; [discriminate | left; reflexivity]).
  split; [exact Hacc|].
  destruct (@configure_frame mec1501 port000_036_config 2 0xA00 hw_pending Hacc)
    as (Hp & _).
  apply Hp. discriminate.
Defined.

(** X5: a call of [gpio_xec_configure] that passes the checks leaves the
    interrupt detection field of the pin's control register as it was. *)
Theorem configure_keeps_detection {HAL : XecHal} (OK : hal_ok HAL)
    (config : gpio_xec_config) (pin fl : Z) (s : hw) :
  configure_accepts config pin fl ->
  let p := pcr1_base config + pin in
  Z.land (pcr1 (final (gpio_xec_configure config pin fl) s) p)
         MCHP_GPIO_CTRL_IDET_MASK
  = Z.land (pcr1 s p) MCHP_GPIO_CTRL_IDET_MASK.
Proof.
  intros Hacc p.
  destruct (configure_accepted config pin fl s Hacc) as (_ & _ & Hreg).
  subst p. rewrite Hreg. clear Hreg.
  pose proof (first_word_keeps_idet OK fl (pcr1 s (pcr1_base config + pin))) as Hk.
  destruct (is_set fl GPIO_OUTPUT); [|exact Hk].
  hal_facts OK. rewrite (second_word_keeps OK) by assumption. exact Hk.
Qed.

Lemma configure_keeps_detection_witness :
  @configure_accepts mec1501 port000_036_config 3 0xA00 /\
  Z.land (pcr1 (final (@gpio_xec_configure mec1501 port000_036_config 3 0xA00)
                  (final (@gpio_xec_pin_interrupt_configure mec1501
                            port000_036_config 3 0x14000 0x60000) hw0)) 3)
         (@MCHP_GPIO_CTRL_IDET_MASK mec1501)
  = @MCHP_GPIO_CTRL_IDET_BEDGE mec1501.
Proof.
  assert (Hacc : @configure_accepts mec1501 port000_036_config 3 0xA00)
    by (split; [discriminate | left; reflexivity]).
  split; [exact Hacc|].
  exact (@configure_keeps_detection mec1501 mec1501_ok port000_036_config 3 0xA00
           (final (@gpio_xec_pin_interrupt_configure mec1501
                     port000_036_config 3 0x14000 0x60000) hw0) Hacc).
Defined.

(** ** More on interrupt configuration *)

Section InterruptMore.

Context {HAL : XecHal} (OK : hal_ok HAL).

Lemma idet_encoding_in (mode trig : Z) :
  Z.land (idet_encoding mode trig) MCHP_GPIO_CTRL_IDET_MASK
  = idet_encoding mode trig.
Proof.
  unfold idet_encoding.
  destruct (mode =? GPIO_INT_MODE_DISABLED); [apply (IDET_DISABLE_in _ OK)|].
  destruct (mode =? GPIO_INT_MODE_LEVEL).
  - destruct (trig =? GPIO_INT_TRIG_HIGH);
      [apply (IDET_LVL_HI_in _ OK) | apply (IDET_LVL_LO_in _ OK)].
  - destruct (trig =? GPIO_INT_TRIG_LOW); [apply (IDET_FEDGE_in _ OK)|].
    destruct (trig =? GPIO_INT_TRIG_HIGH);
      [apply (IDET_REDGE_in _ OK) | apply (IDET_BEDGE_in _ OK)].
Qed.

Lemma interrupt_word_keeps (mode trig old G : Z) :
  word32 G -> Z.land MCHP_GPIO_CTRL_IDET_MASK G = 0 ->
  Z.land (interrupt_word mode trig old) G = Z.land old G.
Proof.
  intros HG Hd. unfold interrupt_word. apply rmw_keep; try assumption.
  apply (inside_other_field _ _ _ (idet_encoding_in mode trig) Hd).
Qed.

End InterruptMore.

(** X6: a call of [gpio_xec_pin_interrupt_configure] that succeeds leaves
    the direction, input-pad-disable, power-gate, pull, buffer-type and AOD
    fields of the pin's control register as they were, and writes no output
    register. *)
Theorem interrupt_keeps_pin_configuration {HAL : XecHal} (OK : hal_ok HAL)
    (config : gpio_xec_config) (pin mode trig : Z) (s : hw) :
  result (gpio_xec_pin_interrupt_configure config pin mode trig) s = 0 ->
  let p := pcr1_base config + pin in
  let s' := final (gpio_xec_pin_interrupt_configure config pin mode trig) s in
  (forall G,
     In G [MCHP_GPIO_CTRL_DIR_MASK; MCHP_GPIO_CTRL_INPAD_DIS_MASK;
           MCHP_GPIO_CTRL_PWRG_MASK; MCHP_GPIO_CTRL_PUD_MASK;
           MCHP_GPIO_CTRL_BUFT_MASK; MCHP_GPIO_CTRL_AOD_MASK] ->
     Z.land (pcr1 s' p) G = Z.land (pcr1 s p) G) /\
  parout s' = parout s.
Proof.
  intros Hres p s'.
  destruct (interrupt_success_inv OK _ _ _ _ _ Hres) as [Hacc Htrig].
  destruct (interrupt_final_registers config pin mode trig s Hacc Htrig)
    as (Hp & Ho & _).
  fold s' in Hp, Ho. fold p in Hp.
  split; [|exact Ho].
  intros G HG. rewrite Hp, Z.eqb_refl. hal_facts OK.
  simpl in HG.
  repeat (destruct HG as [<-|HG];
          [apply (interrupt_word_keeps OK); [assumption|];
           rewrite Z.land_comm; assumption|]).
  contradiction.
Qed.

Lemma interrupt_keeps_pin_configuration_witness :
  result (@gpio_xec_pin_interrupt_configure mec1501 port000_036_config
            3 0x14000 0x20000)
         (final (@gpio_xec_configure mec1501 port000_036_config 3 0xA10) hw0) = 0 /\
  Z.land (pcr1 (final (@gpio_xec_pin_interrupt_configure mec1501 port000_036_config
                         3 0x14000 0x20000)
                  (final (@gpio_xec_configure mec1501 port000_036_config 3 0xA10)
                     hw0)) 3)
         (@MCHP_GPIO_CTRL_DIR_MASK mec1501)
  = @MCHP_GPIO_CTRL_DIR_OUTPUT mec1501.
Proof.
  split; [reflexivity|].
  destruct (@interrupt_keeps_pin_configuration mec1501 mec1501_ok
              port000_036_config 3 0x14000 0x20000
              (final (@gpio_xec_configure mec1501 port000_036_config 3 0xA10) hw0)
              eq_refl) as (Hk & _).
  exact (Hk (@MCHP_GPIO_CTRL_DIR_MASK mec1501) (or_introl eq_refl)).
Defined.

(** X7: in level mode [gpio_xec_pin_interrupt_configure] never turns a
    trigger down: with the checks passed it succeeds for every trigger value
    and programs level-high detection for [GPIO_INT_TRIG_HIGH] and level-low
    detection for every other value, [GPIO_INT_TRIG_BOTH] included. *)
Theorem interrupt_level_trigger {HAL : XecHal} (OK : hal_ok HAL)
    (config : gpio_xec_config) (pin trig : Z) (s : hw) :
  interrupt_accepts config pin GPIO_INT_MODE_LEVEL ->
  GPIO_INT_MODE_LEVEL <> GPIO_INT_MODE_DISABLED ->
  let p := pcr1_base config + pin in
  let c := gpio_xec_pin_interrupt_configure config pin GPIO_INT_MODE_LEVEL trig in
  result c s = 0 /\
  Z.land (pcr1 (final c s) p) MCHP_GPIO_CTRL_IDET_MASK
  = (if trig =? GPIO_INT_TRIG_HIGH then MCHP_GPIO_CTRL_IDET_LVL_HI
     else MCHP_GPIO_CTRL_IDET_LVL_LO).
Proof.
  intros Hacc Hne p c.
  assert (Htrig : trigger_accepted GPIO_INT_MODE_LEVEL trig)
    by (right; left; reflexivity).
  destruct (interrupt_accepted config pin _ trig s Hacc Htrig) as (Hres & _ & Hreg).
  split; [exact Hres|].
  unfold c, p. rewrite Hreg, interrupt_word_idet by assumption.
  unfold idet_encoding. apply Z.eqb_neq in Hne. rewrite Hne, Z.eqb_refl.
  reflexivity.
Qed.

Lemma interrupt_level_trigger_witness :
  @interrupt_accepts mec1501 port000_036_config 3 (@GPIO_INT_MODE_LEVEL mec1501) /\
  @GPIO_INT_MODE_LEVEL mec1501 <> @GPIO_INT_MODE_DISABLED mec1501 /\
  Z.land (pcr1 (final (@gpio_xec_pin_interrupt_configure mec1501 port000_036_config
                         3 (@GPIO_INT_MODE_LEVEL mec1501)
                         (@GPIO_INT_TRIG_BOTH mec1501)) hw0) 3)
         (@MCHP_GPIO_CTRL_IDET_MASK mec1501)
  = @MCHP_GPIO_CTRL_IDET_LVL_LO mec1501.
Proof.
  assert (Hacc : @interrupt_accepts mec1501 port000_036_config 3
                   (@GPIO_INT_MODE_LEVEL mec1501))
    by (split; [discriminate | right; discriminate]).
  assert (Hne : @GPIO_INT_MODE_LEVEL mec1501 <> @GPIO_INT_MODE_DISABLED mec1501)
    by discriminate.
  split; [exact Hacc|]. split; [exact Hne|].
  destruct (@interrupt_level_trigger mec1501 mec1501_ok port000_036_config 3
              (@GPIO_INT_TRIG_BOTH mec1501) hw0 Hacc Hne) as (_ & Hf).
  exact Hf.
Defined.

(** X8: every mode other than disabled and level is handled as edge mode:
    with the checks passed and distinct trigger enumerators,
    [GPIO_INT_TRIG_LOW] programs falling-edge, [GPIO_INT_TRIG_HIGH]
    rising-edge and [GPIO_INT_TRIG_BOTH] both-edge detection, and the call
    succeeds. *)
Theorem interrupt_edge_trigger {HAL : XecHal} (OK : hal_ok HAL)
    (config : gpio_xec_config) (pin mode trig : Z) (s : hw) :
  interrupt_accepts config pin mode ->
  mode <> GPIO_INT_MODE_DISABLED -> mode <> GPIO_INT_MODE_LEVEL ->
  GPIO_INT_TRIG_LOW <> GPIO_INT_TRIG_HIGH ->
  GPIO_INT_TRIG_LOW <> GPIO_INT_TRIG_BOTH ->
  GPIO_INT_TRIG_HIGH <> GPIO_INT_TRIG_BOTH ->
  trig = GPIO_INT_TRIG_LOW \/ trig = GPIO_INT_TRIG_HIGH \/ trig = GPIO_INT_TRIG_BOTH ->
  let p := pcr1_base config + pin in
  let c := gpio_xec_pin_interrupt_configure config pin mode trig in
  result c s = 0 /\
  (trig = GPIO_INT_TRIG_LOW ->
   Z.land (pcr1 (final c s) p) MCHP_GPIO_CTRL_IDET_MASK = MCHP_GPIO_CTRL_IDET_FEDGE) /\
  (trig = GPIO_INT_TRIG_HIGH ->
   Z.land (pcr1 (final c s) p) MCHP_GPIO_CTRL_IDET_MASK = MCHP_GPIO_CTRL_IDET_REDGE) /\
  (trig = GPIO_INT_TRIG_BOTH ->
   Z.land (pcr1 (final c s) p) MCHP_GPIO_CTRL_IDET_MASK = MCHP_GPIO_CTRL_IDET_BEDGE).
Proof.
  intros Hacc Hd Hl Hlh Hlb Hhb Htr p c.
  assert (Htrig : trigger_accepted mode trig) by (unfold trigger_accepted; tauto).
  destruct (interrupt_accepted config pin mode trig s Hacc Htrig) as (Hres & _ & Hreg).
  split; [exact Hres|].
  unfold c, p. rewrite Hreg, interrupt_word_idet by assumption.
  unfold idet_encoding. apply Z.eqb_neq in Hd, Hl. rewrite Hd, Hl.
  split; [|split]; intros ->.
  - rewrite Z.eqb_refl. reflexivity.
  - replace (GPIO_INT_TRIG_HIGH =? GPIO_INT_TRIG_LOW) with false
      by (symmetry; apply Z.eqb_neq; congruence).
    rewrite Z.eqb_refl. reflexivity.
  - replace (GPIO_INT_TRIG_BOTH =? GPIO_INT_TRIG_LOW) with false
      by (symmetry; apply Z.eqb_neq; congruence).
    replace (GPIO_INT_TRIG_BOTH =? GPIO_INT_TRIG_HIGH) with false
      by (symmetry; apply Z.eqb_neq; congruence).
    reflexivity.
Qed.

Lemma interrupt_edge_trigger_witness :
  @interrupt_accepts mec1501 port000_036_config 3 (@GPIO_INT_MODE_EDGE mec1501) /\
  Z.land (pcr1 (final (@gpio_xec_pin_interrupt_configure mec1501 port000_036_config
                         3 (@GPIO_INT_MODE_EDGE mec1501)
                         (@GPIO_INT_TRIG_HIGH mec1501)) hw0) 3)
         (@MCHP_GPIO_CTRL_IDET_MASK mec1501)
  = @MCHP_GPIO_CTRL_IDET_REDGE mec1501.
Proof.
  assert (Hacc : @interrupt_accepts mec1501 port000_036_config 3
                   (@GPIO_INT_MODE_EDGE mec1501))
    by (split; [discriminate | right; discriminate]).
  split; [exact Hacc|].
  destruct (@interrupt_edge_trigger mec1501 mec1501_ok port000_036_config 3
              (@GPIO_INT_MODE_EDGE mec1501) (@GPIO_INT_TRIG_HIGH mec1501) hw0 Hacc)
    as (_ & _ & Hh & _); try discriminate.
  - right. left. reflexivity.
  - apply Hh. reflexivity.
Defined.

(** X9: on a port whose configuration lacks [GPIO_INT_ENABLE], every mode
    other than disabled is turned down with [-ENOTSUP] for every valid pin
    and every trigger, and no register is written. *)
Theorem interrupt_unsupported_port {HAL : XecHal}
    (config : gpio_xec_config) (pin mode trig : Z) (s : hw) :
  Z.land (valid_ctrl_mask config) (BIT pin) <> 0 ->
  Z.land (flags config) GPIO_INT_ENABLE = 0 ->
  mode <> GPIO_INT_MODE_DISABLED ->
  gpio_xec_pin_interrupt_configure config pin mode trig s = (- ENOTSUP, s).
Proof.
  intros Hv Hcap Hm. apply interrupt_no_capability; assumption.
Qed.

Lemma interrupt_unsupported_port_witness :
  Z.land (@valid_ctrl_mask mec1501 port000_036_noirq_config) (BIT 0) <> 0 /\
  Z.land (flags port000_036_noirq_config) (@GPIO_INT_ENABLE mec1501) = 0 /\
  @gpio_xec_pin_interrupt_configure mec1501 port000_036_noirq_config 0
    (@GPIO_INT_MODE_LEVEL mec1501) (@GPIO_INT_TRIG_HIGH mec1501) hw0
  = (- 134, hw0).
Proof.
  split; [discriminate|]. split; [reflexivity|].
  apply (@interrupt_unsupported_port mec1501 port000_036_noirq_config 0
           (@GPIO_INT_MODE_LEVEL mec1501) (@GPIO_INT_TRIG_HIGH mec1501) hw0);
    [discriminate | reflexivity | discriminate].
Defined.

(** X10: after a call of [gpio_xec_pin_interrupt_configure] that succeeds,
    the pin's enable bit in the aggregator is set exactly when the mode is
    not disabled, and for such a mode the pin's latched source bit is
    cleared; for mode disabled the source register is not touched.  The
    enable and source bits of the other pins and the other aggregators are
    as before. *)
Theorem interrupt_aggregator_state {HAL : XecHal} (OK : hal_ok HAL)
    (config : gpio_xec_config) (pin mode trig : Z) (s : hw) :
  result (gpio_xec_pin_interrupt_configure config pin mode trig) s = 0 ->
  let id := girq_id config in
  let s' := final (gpio_xec_pin_interrupt_configure config pin mode trig) s in
  Z.testbit (girq_en s' id) pin = negb (mode =? GPIO_INT_MODE_DISABLED) /\
  (mode <> GPIO_INT_MODE_DISABLED -> Z.testbit (girq_src s' id) pin = false) /\
  (mode = GPIO_INT_MODE_DISABLED -> girq_src s' id = girq_src s id) /\
  (forall i, 0 <= i < 32 -> i <> pin ->
   Z.testbit (girq_en s' id) i = Z.testbit (girq_en s id) i /\
   Z.testbit (girq_src s' id) i = Z.testbit (girq_src s id) i) /\
  (forall k, k <> id ->
   girq_en s' k = girq_en s k /\ girq_src s' k = girq_src s k).
Proof.
  intros Hres id s'.
  destruct (interrupt_success_inv OK _ _ _ _ _ Hres) as [Hacc Htrig].
  pose proof (valid_pin_range _ _ (proj1 Hacc)) as Hpin.
  destruct (interrupt_final_registers config pin mode trig s Hacc Htrig)
    as (_ & _ & _ & Hen & Hsrc).
  fold s' in Hen, Hsrc. fold id in Hen, Hsrc.
  pose proof (Hen id) as Hen_id. pose proof (Hsrc id) as Hsrc_id.
  rewrite Z.eqb_refl in Hen_id, Hsrc_id.
  unfold interrupt_enable_word in Hen_id. unfold interrupt_source_word in Hsrc_id.
  split; [|split; [|split; [|split]]].
  - rewrite Hen_id. destruct (mode =? GPIO_INT_MODE_DISABLED); simpl.
    + apply clear_pin_bit. assumption.
    + apply set_pin_bit. assumption.
  - intros Hm. rewrite Hsrc_id. apply Z.eqb_neq in Hm. rewrite Hm.
    apply clear_pin_bit. assumption.
  - intros ->. rewrite Hsrc_id, Z.eqb_refl. reflexivity.
  - intros i Hi Hne. rewrite Hen_id, Hsrc_id.
    destruct (mode =? GPIO_INT_MODE_DISABLED).
    + split; [apply land_not_BIT_other; assumption | reflexivity].
    + split.
      * rewrite lor_BIT_other by lia. apply land_not_BIT_other; assumption.
      * apply land_not_BIT_other; assumption.
  - intros k Hk. rewrite Hen, Hsrc. apply Z.eqb_neq in Hk. rewrite Hk. auto.
Qed.

Lemma interrupt_aggregator_state_witness :
  result (@gpio_xec_pin_interrupt_configure mec1501 port000_036_config
            4 (@GPIO_INT_MODE_EDGE mec1501) (@GPIO_INT_TRIG_LOW mec1501))
         hw_pending = 0 /\
  Z.testbit (girq_en (final (@gpio_xec_pin_interrupt_configure mec1501
                               port000_036_config 4 (@GPIO_INT_MODE_EDGE mec1501)
                               (@GPIO_INT_TRIG_LOW mec1501)) hw_pending) 11) 4
  = true /\
  Z.testbit (girq_src (final (@gpio_xec_pin_interrupt_configure mec1501
                                port000_036_config 4 (@GPIO_INT_MODE_EDGE mec1501)
                                (@GPIO_INT_TRIG_LOW mec1501)) hw_pending) 11) 4
  = false.
Proof.
  split; [reflexivity|].
  destruct (@interrupt_aggregator_state mec1501 mec1501_ok port000_036_config 4
              (@GPIO_INT_MODE_EDGE mec1501) (@GPIO_INT_TRIG_LOW mec1501)
              hw_pending eq_refl) as (Hen & Hsrc & _).
  split; [exact Hen|]. apply Hsrc. discriminate.
Defined.

(** ** More on the bulk port operations *)

(** X11: [gpio_xec_port_set_masked_raw] returns 0 and stores one word to the
    port's output register, in which every pin of the mask has the bit of
    [value] and every other pin keeps its bit. *)
Theorem set_masked_raw_pins
    (config : gpio_xec_config) (mask value : Z) (s : hw) :
  let n := port_num config in
  let c := gpio_xec_port_set_masked_raw config mask value in
  result c s = 0 /\
  trace (final c s) = trace s ++ [EvWrite (GPIO_PAROUT n) (parout (final c s) n)] /\
  (forall i, 0 <= i < 32 ->
   Z.testbit (parout (final c s) n) i
   = if Z.testbit mask i then Z.testbit value i else Z.testbit (parout s n) i).
Proof.
  intros n c. subst c n.
  unfold result, final, gpio_xec_port_set_masked_raw, GPIO_OUT_BASE,
    bind, read, write, ret. simpl. rewrite upd_same.
  split; [reflexivity|]. split; [reflexivity|].
  intros i Hi. rewrite Z.lor_spec, !Z.land_spec, not32_spec by lia.
  replace (i <? 32) with true by (symmetry; apply Z.ltb_lt; lia).
  destruct (Z.testbit mask i), (Z.testbit value i),
    (Z.testbit (parout s (port_num config)) i); reflexivity.
Qed.

(** X12: in the port's output register, [gpio_xec_port_set_bits_raw] sets
    the pins of the mask, [gpio_xec_port_clear_bits_raw] clears them and
    [gpio_xec_port_toggle_bits] inverts them; each keeps the bit of every pin
    outside the mask. *)
Theorem set_clear_toggle_pins
    (config : gpio_xec_config) (mask : Z) (s : hw) (i : Z) :
  0 <= i < 32 ->
  let n := port_num config in
  let o := Z.testbit (parout s n) i in
  Z.testbit (parout (final (gpio_xec_port_set_bits_raw config mask) s) n) i
  = (if Z.testbit mask i then true else o) /\
  Z.testbit (parout (final (gpio_xec_port_clear_bits_raw config mask) s) n) i
  = (if Z.testbit mask i then false else o) /\
  Z.testbit (parout (final (gpio_xec_port_toggle_bits config mask) s) n) i
  = (if Z.testbit mask i then negb o else o).
Proof.
  intros Hi n o. subst o n.
  unfold final, gpio_xec_port_set_bits_raw, gpio_xec_port_clear_bits_raw,
    gpio_xec_port_toggle_bits, GPIO_OUT_BASE, bind, read, write, ret. simpl.
  rewrite !upd_same.
  rewrite Z.lor_spec, Z.land_spec, Z.lxor_spec, not32_spec by lia.
  replace (i <? 32) with true by (symmetry; apply Z.ltb_lt; lia).
  destruct (Z.testbit mask i), (Z.testbit (parout s (port_num config)) i);
    auto.
Qed.

Lemma set_clear_toggle_pins_witness :
  Z.testbit (parout (final (gpio_xec_port_set_bits_raw port000_036_config 0x6)
                       hw0) 0) 2 = true /\
  Z.testbit (parout (final (gpio_xec_port_clear_bits_raw port000_036_config 0x6)
                       hw0) 0) 2 = false /\
  Z.testbit (parout (final (gpio_xec_port_toggle_bits port000_036_config 0x6)
                       hw0) 0) 2 = true.
Proof.
  apply (set_clear_toggle_pins port000_036_config 0x6 hw0 2). lia.
Defined.

(** X13: each of the four bulk output operations returns 0, writes exactly
    one register, the output register of its own port, and leaves every
    control register, the output registers of the other ports, the input
    registers and the aggregator as they were. *)
Theorem bulk_operations_frame
    (config : gpio_xec_config) (mask value : Z) (s : hw) (c : M Z) :
  In c [gpio_xec_port_set_masked_raw config mask value;
        gpio_xec_port_set_bits_raw config mask;
        gpio_xec_port_clear_bits_raw config mask;
        gpio_xec_port_toggle_bits config mask] ->
  let n := port_num config in
  result c s = 0 /\
  (exists w, trace (final c s) = trace s ++ [EvWrite (GPIO_PAROUT n) w]) /\
  pcr1 (final c s) = pcr1 s /\
  (forall m, m <> n -> parout (final c s) m = parout s m) /\
  parin (final c s) = parin s /\
  girq_en (final c s) = girq_en s /\ girq_src (final c s) = girq_src s.
Proof.
  intros Hc n. simpl in Hc.
  assert (Hupd : forall w m, m <> n -> upd (parout s) n w m = parout s m).
  { intros w m Hm. unfold upd. apply Z.eqb_neq in Hm. rewrite Hm. reflexivity. }
  destruct Hc as [<- | [<- | [<- | [<- | []]]]];
    unfold result, final, gpio_xec_port_set_masked_raw, gpio_xec_port_set_bits_raw,
      gpio_xec_port_clear_bits_raw, gpio_xec_port_toggle_bits, GPIO_OUT_BASE,
      bind, read, write, ret; simpl;
    (split; [reflexivity|]); (split; [eexists; reflexivity|]);
    (split; [reflexivity|]); (split; [apply Hupd|]); auto.
Qed.

Lemma bulk_operations_frame_witness :
  result (gpio_xec_port_toggle_bits port000_036_config 0x6) hw_pending = 0 /\
  girq_src (final (gpio_xec_port_toggle_bits port000_036_config 0x6) hw_pending)
  = girq_src hw_pending.
Proof.
  destruct (bulk_operations_frame port000_036_config 0x6 0 hw_pending
              (gpio_xec_port_toggle_bits port000_036_config 0x6))
    as (Hres & _ & _ & _ & _ & _ & Hsrc).
  - right. right. right. left. reflexivity.
  - split; [exact Hres | exact Hsrc].
Defined.

(** ** More on interrupt dispatch *)

(** X14: after [gpio_gpio_xec_port_isr] the aggregator's result register
    reads 0: no source it has serviced is left pending.  The enable mask is
    as before, and a source that is latched but not enabled stays latched. *)
Theorem isr_clears_pending
    (config : gpio_xec_config) (data : gpio_xec_data) (s : hw) :
  let id := girq_id config in
  let s' := final (gpio_gpio_xec_port_isr config data) s in
  load (GIRQ_RESULT id) s' = 0 /\
  girq_en s' = girq_en s /\
  (forall i, 0 <= i < 32 -> Z.testbit (girq_en s id) i = false ->
   Z.testbit (girq_src s' id) i = Z.testbit (girq_src s id) i).
Proof.
  intros id s'.
  set (R := load (GIRQ_RESULT id) s).
  set (s1 := log (EvWrite (GIRQ_SRC id) R) (store (GIRQ_SRC id) R s)).
  assert (Hs' : s' = final (gpio_fire_callbacks (callbacks data) R) s1)
    by reflexivity.
  destruct (fire_callbacks_registers (callbacks data) R s1)
    as (_ & _ & _ & Hen & Hsrc).
  rewrite <- Hs' in Hen, Hsrc. simpl in Hen, Hsrc.
  assert (Hsrc_id : girq_src s' id
                    = Z.land (girq_src s id)
                        (not32 (Z.land (girq_src s id) (girq_en s id)))).
  { rewrite Hsrc. apply upd_same. }
  split; [|split].
  - simpl. rewrite Hen, Hsrc_id. apply Z.bits_inj'. intros i Hi.
    rewrite !Z.land_spec, not32_spec, Z.land_spec, Z.bits_0 by lia.
    destruct (Z.testbit (girq_src s id) i), (Z.testbit (girq_en s id) i),
      (i <? 32); reflexivity.
  - exact Hen.
  - intros i Hi Hoff. rewrite Hsrc_id, Z.land_spec, not32_spec, Z.land_spec by lia.
    rewrite Hoff. replace (i <? 32) with true by (symmetry; apply Z.ltb_lt; lia).
    rewrite andb_false_r. simpl. apply andb_true_r.
Qed.

Lemma isr_clears_pending_example :
  load (GIRQ_RESULT 11) hw_pending = 5 /\
  load (GIRQ_RESULT 11)
       (final (gpio_gpio_xec_port_isr port000_036_config {| callbacks := [] |})
              hw_pending) = 0.
Proof. split; reflexivity. Qed.

(** ** Registers keep holding 32-bit words *)

Lemma word32_upd (f : Z -> Z) (k v : Z) :
  (forall x, word32 (f x)) -> word32 v -> forall x, word32 (upd f k v x).
Proof.
  intros Hf Hv x. unfold upd. destruct (x =? k); [assumption | apply Hf].
Qed.

Lemma word32_if (b : bool) (x y : Z) :
  word32 x -> word32 y -> word32 (if b then x else y).
Proof. destruct b; auto. Qed.

(** [word32 v] for an encoding [v] of a 32-bit field. *)
Ltac inside_word :=
  match goal with
  | H : Z.land ?v ?F = ?v |- word32 ?v => apply (word32_inside v F); assumption
  end.

Section Word32Invariant.

Context {HAL : XecHal} (OK : hal_ok HAL).

Lemma word32_configure_first_word (fl old : Z) :
  word32 (configure_first_word fl old).
Proof.
  hal_facts OK. unfold configure_first_word.
  assert (word32 MCHP_GPIO_CTRL_DIR_INPUT) by inside_word.
  assert (word32 MCHP_GPIO_CTRL_PUD_PU) by inside_word.
  assert (word32 MCHP_GPIO_CTRL_PUD_PD) by inside_word.
  assert (word32 MCHP_GPIO_CTRL_BUFT_OPENDRAIN) by inside_word.
  assert (word32 MCHP_GPIO_CTRL_BUFT_PUSHPULL) by inside_word.
  assert (word32 MCHP_GPIO_CTRL_AOD_DIS) by inside_word.
  assert (word32 MCHP_GPIO_CTRL_PWRG_OFF) by inside_word.
  apply word32_lor; [apply word32_land_r, word32_not32|].
  destruct (is_set fl GPIO_PULL_UP), (is_set fl GPIO_PULL_DOWN),
    (is_set fl GPIO_OPEN_DRAIN), (fl =? GPIO_DISCONNECTED);
    repeat apply word32_lor; assumption.
Qed.

Lemma word32_configure_final_word (fl old : Z) :
  word32 (configure_final_word fl old).
Proof.
  unfold configure_final_word. apply word32_if.
  - unfold configure_second_word. apply (word32_rmw _ _ _).
    hal_facts OK. inside_word.
  - apply word32_configure_first_word.
Qed.

Lemma word32_configure_out_word (pin fl o : Z) :
  word32 o -> word32 (configure_out_word pin fl o).
Proof.
  intros Ho. unfold configure_out_word.
  repeat apply word32_if; try assumption.
  - apply word32_lor; [assumption | apply word32_BIT].
  - apply word32_land_l. assumption.
Qed.

Lemma word32_interrupt_word (mode trig old : Z) :
  word32 (interrupt_word mode trig old).
Proof.
  unfold interrupt_word. apply (word32_rmw _ _ _).
  pose proof (ctrl_masks_word32 _ OK) as Hw. rewrite !Forall_cons_iff in Hw.
  apply (word32_inside _ MCHP_GPIO_CTRL_IDET_MASK); [tauto|].
  apply idet_encoding_in. assumption.
Qed.

Lemma configure_keeps_word32 (config : gpio_xec_config) (pin fl : Z) (s : hw) :
  hw_word32 s -> hw_word32 (final (gpio_xec_configure config pin fl) s).
Proof.
  intros Hs.
  destruct (configure_cases config pin fl) as [Hv | [(Hv & Hse & Hod) | Hacc]].
  - unfold final. rewrite configure_invalid_pin by assumption. exact Hs.
  - unfold final. rewrite configure_open_source by assumption. exact Hs.
  - destruct (configure_final_registers config pin fl s Hacc)
      as (Hp & Ho & Hin & Hen & Hsrc).
    intros k. rewrite Hp, Ho, Hin, Hen, Hsrc.
    destruct (Hs k) as (H1 & H2 & H3 & H4 & H5).
    split; [|split; [|split; [|split]]]; try assumption.
    + apply word32_if; [apply word32_configure_final_word | exact H1].
    + apply word32_if; [|exact H2].
      apply word32_configure_out_word. apply (Hs (port_num config)).
Qed.

Lemma interrupt_keeps_word32
    (config : gpio_xec_config) (pin mode trig : Z) (s : hw) :
  hw_word32 s ->
  hw_word32 (final (gpio_xec_pin_interrupt_configure config pin mode trig) s).
Proof.
  intros Hs.
  destruct (interrupt_cases config pin mode trig)
    as [Hv | [(Hv & Hm & Hcap) | [(Hacc & Hbad) | (Hacc & Hok)]]].
  - unfold final. rewrite interrupt_invalid_pin by assumption. exact Hs.
  - unfold final. rewrite interrupt_no_capability by assumption. exact Hs.
  - unfold final. rewrite interrupt_bad_trigger by assumption. simpl.
    intros k. destruct (Hs k) as (H1 & H2 & H3 & H4 & H5). simpl.
    split; [|split; [|split; [|split]]]; try assumption.
    apply word32_upd; [intros x; apply (Hs x)|].
    apply word32_land_r, word32_not32.
  - destruct (interrupt_final_registers config pin mode trig s Hacc Hok)
      as (Hp & Ho & Hin & Hen & Hsrc).
    intros k. rewrite Hp, Ho, Hin, Hen, Hsrc.
    destruct (Hs k) as (H1 & H2 & H3 & H4 & H5).
    split; [|split; [|split; [|split]]]; try assumption.
    + apply word32_if; [apply word32_interrupt_word | exact H1].
    + apply word32_if; [|exact H4]. unfold interrupt_enable_word.
      apply word32_if.
      * apply word32_land_r, word32_not32.
      * apply word32_lor; [apply word32_land_r, word32_not32 | apply word32_BIT].
    + apply word32_if; [|exact H5]. unfold interrupt_source_word.
      apply word32_if; [apply (Hs (girq_id config))|].
      apply word32_land_r, word32_not32.
Qed.

End Word32Invariant.

(** X15: if every register holds a 32-bit word, it still does after any call
    of [gpio_xec_configure], [gpio_xec_pin_interrupt_configure], the
    interrupt service routine, or a bulk output operation with a 32-bit
    mask: no read-modify-write of the driver leaves the 32-bit range. *)
Theorem operations_keep_word32 {HAL : XecHal} (OK : hal_ok HAL)
    (config : gpio_xec_config) (data : gpio_xec_data)
    (pin fl mode trig mask value : Z) (s : hw) :
  hw_word32 s -> word32 mask ->
  hw_word32 (final (gpio_xec_configure config pin fl) s) /\
  hw_word32 (final (gpio_xec_pin_interrupt_configure config pin mode trig) s) /\
  hw_word32 (final (gpio_xec_port_set_masked_raw config mask value) s) /\
  hw_word32 (final (gpio_xec_port_set_bits_raw config mask) s) /\
  hw_word32 (final (gpio_xec_port_clear_bits_raw config mask) s) /\
  hw_word32 (final (gpio_xec_port_toggle_bits config mask) s) /\
  hw_word32 (final (gpio_gpio_xec_port_isr config data) s).
Proof.
  intros Hs Hmask.
  assert (Hbulk : forall w, word32 w ->
            hw_word32 (log (EvWrite (GPIO_PAROUT (port_num config)) w)
                           (store (GPIO_PAROUT (port_num config)) w s))).
  { intros w Hw k. destruct (Hs k) as (H1 & H2 & H3 & H4 & H5). simpl.
    split; [|split; [|split; [|split]]]; try assumption.
    apply word32_upd; [intros x; apply (Hs x) | exact Hw]. }
  split; [apply configure_keeps_word32; assumption|].
  split; [apply interrupt_keeps_word32; assumption|].
  split; [apply Hbulk, word32_lor;
          [apply word32_land_r, word32_not32 | apply word32_land_l; assumption]|].
  split; [apply Hbulk, word32_lor; [apply (Hs (port_num config)) | assumption]|].
  split; [apply Hbulk, word32_land_r, word32_not32|].
  split; [apply Hbulk, word32_lxor; [apply (Hs (port_num config)) | assumption]|].
  set (R := load (GIRQ_RESULT (girq_id config)) s).
  set (s1 := log (EvWrite (GIRQ_SRC (girq_id config)) R)
                 (store (GIRQ_SRC (girq_id config)) R s)).
  assert (Hs' : final (gpio_gpio_xec_port_isr config data) s
                = final (gpio_fire_callbacks (callbacks data) R) s1)
    by reflexivity.
  destruct (fire_callbacks_registers (callbacks data) R s1)
    as (Hp & Ho & Hin & Hen & Hsrc).
  rewrite <- Hs' in Hp, Ho, Hin, Hen, Hsrc.
  intros k. rewrite Hp, Ho, Hin, Hen, Hsrc. simpl.
  destruct (Hs k) as (H1 & H2 & H3 & H4 & H5).
  split; [|split; [|split; [|split]]]; try assumption.
  apply word32_upd; [intros x; apply (Hs x)|].
  apply word32_land_r, word32_not32.
Qed.

Lemma hw_pending_word32 : hw_word32 hw_pending.
Proof. intros k. simpl. unfold word32. lia. Qed.

Lemma operations_keep_word32_witness :
  hw_word32 hw_pending /\ word32 0xFFFFFFFF /\
  hw_word32 (final (gpio_xec_port_toggle_bits port000_036_config 0xFFFFFFFF)
               hw_pending).
Proof.
  assert (Hm : word32 0xFFFFFFFF) by (unfold word32; lia).
  split; [exact hw_pending_word32|]. split; [exact Hm|].
  destruct (@operations_keep_word32 mec1501 mec1501_ok port000_036_config
              {| callbacks := [] |} 0 0 0 0 0xFFFFFFFF 0 hw_pending
              hw_pending_word32 Hm) as (_ & _ & _ & _ & _ & Ht & _).
  exact Ht.
Defined.

(** ** Return values and calls on different pins *)

(** X16: the value [gpio_xec_configure] returns depends on the port's
    bitmap, the pin and the flags only: [-EINVAL] when the pin is not in the
    bitmap, whatever the flags; otherwise [-ENOTSUP] when the flags have
    [GPIO_SINGLE_ENDED] without the open-drain line bit; otherwise 0. *)
Theorem configure_return_value {HAL : XecHal}
    (config : gpio_xec_config) (pin fl : Z) (s : hw) :
  result (gpio_xec_configure config pin fl) s
  = if Z.land (valid_ctrl_mask config) (BIT pin) =? 0 then - EINVAL
    else if is_set fl GPIO_SINGLE_ENDED && negb (is_set fl GPIO_LINE_OPEN_DRAIN)
         then - ENOTSUP
         else 0.
Proof.
  destruct (configure_cases config pin fl) as [Hv | [(Hv & Hse & Hod) | Hacc]].
  - unfold result. rewrite configure_invalid_pin by assumption.
    rewrite Hv. reflexivity.
  - unfold result. rewrite configure_open_source by assumption.
    apply Z.eqb_neq in Hv. rewrite Hv.
    apply is_set_true in Hse. apply is_set_false in Hod. rewrite Hse, Hod.
    reflexivity.
  - destruct (configure_accepted config pin fl s Hacc) as (Hres & _).
    rewrite Hres. destruct Hacc as [Hv Hmode].
    apply Z.eqb_neq in Hv. rewrite Hv.
    destruct Hmode as [H|H].
    + apply is_set_false in H. rewrite H. reflexivity.
    + apply is_set_true in H. rewrite H. rewrite andb_false_r. reflexivity.
Qed.

(** X17: the value [gpio_xec_pin_interrupt_configure] returns depends on the
    port's bitmap and capability flag, the pin, the mode and the trigger
    only: [-EINVAL] when the pin is not in the bitmap; otherwise [-ENOTSUP]
    when the mode is not disabled and the port lacks [GPIO_INT_ENABLE];
    otherwise [-EINVAL] when the mode is neither disabled nor level and the
    trigger is none of low, high and both; otherwise 0. *)
Theorem interrupt_return_value {HAL : XecHal}
    (config : gpio_xec_config) (pin mode trig : Z) (s : hw) :
  result (gpio_xec_pin_interrupt_configure config pin mode trig) s
  = if Z.land (valid_ctrl_mask config) (BIT pin) =? 0 then - EINVAL
    else if negb (mode =? GPIO_INT_MODE_DISABLED)
            && (Z.land (flags config) GPIO_INT_ENABLE =? 0) then - ENOTSUP
    else if (mode =? GPIO_INT_MODE_DISABLED) || (mode =? GPIO_INT_MODE_LEVEL)
            || (trig =? GPIO_INT_TRIG_LOW) || (trig =? GPIO_INT_TRIG_HIGH)
            || (trig =? GPIO_INT_TRIG_BOTH) then 0
    else - EINVAL.
Proof.
  destruct (interrupt_cases config pin mode trig)
    as [Hv | [(Hv & Hm & Hcap) | [(Hacc & Hbad) | (Hacc & Hok)]]].
  - unfold result. rewrite interrupt_invalid_pin by assumption.
    rewrite Hv. reflexivity.
  - unfold result. rewrite interrupt_no_capability by assumption.
    apply Z.eqb_neq in Hv, Hm. rewrite Hv, Hm, Hcap. reflexivity.
  - unfold result. rewrite interrupt_bad_trigger by assumption.
    destruct (interrupt_checks_pass _ _ _ Hacc) as [Hv Hcap].
    rewrite Hv, Hcap. destruct Hbad as (Hd & Hl & Hlo & Hhi & Hbo).
    apply Z.eqb_neq in Hd, Hl, Hlo, Hhi, Hbo.
    rewrite Hd, Hl, Hlo, Hhi, Hbo. reflexivity.
  - destruct (interrupt_accepted config pin mode trig s Hacc Hok) as (Hres & _).
    rewrite Hres.
    destruct (interrupt_checks_pass _ _ _ Hacc) as [Hv Hcap].
    rewrite Hv, Hcap.
    destruct Hok as [-> | [-> | [-> | [-> | ->]]]];
      rewrite Z.eqb_refl, ?orb_true_r; reflexivity.
Qed.

Lemma configure_out_word_commute {HAL : XecHal} (a b fa fb o : Z) :
  a <> b ->
  configure_out_word a fa (configure_out_word b fb o)
  = configure_out_word b fb (configure_out_word a fa o).
Proof.
  intros Hab. unfold configure_out_word.
  destruct (is_set fa GPIO_OUTPUT); [|reflexivity].
  destruct (is_set fb GPIO_OUTPUT); [|reflexivity].
  destruct (is_set fa GPIO_OUTPUT_INIT_HIGH), (is_set fb GPIO_OUTPUT_INIT_HIGH),
    (is_set fa GPIO_OUTPUT_INIT_LOW), (is_set fb GPIO_OUTPUT_INIT_LOW);
    try reflexivity;
    apply Z.bits_inj'; intros i Hi;
    rewrite ?Z.lor_spec, ?Z.land_spec, ?not32_spec, ?Z.lor_spec, ?Z.land_spec,
      ?not32_spec, ?BIT_spec by lia;
    destruct (Z.eqb_spec i a), (Z.eqb_spec i b); try congruence;
    destruct (Z.testbit o i), (i <? 32); reflexivity.
Qed.

(** X18: calls of [gpio_xec_configure] for two different pins of a port that
    both pass the checks can be made in either order: the registers end up
    the same. *)
Theorem configure_pins_commute {HAL : XecHal}
    (config : gpio_xec_config) (a b fa fb : Z) (s : hw) :
  a <> b ->
  configure_accepts config a fa ->
  configure_accepts config b fb ->
  let sab := final (gpio_xec_configure config b fb)
               (final (gpio_xec_configure config a fa) s) in
  let sba := final (gpio_xec_configure config a fa)
               (final (gpio_xec_configure config b fb) s) in
  (forall q, pcr1 sab q = pcr1 sba q) /\
  (forall m, parout sab m = parout sba m) /\
  parin sab = parin sba /\ girq_en sab = girq_en sba /\ girq_src sab = girq_src sba.
Proof.
  intros Hab Ha Hb sab sba.
  destruct (configure_final_registers config a fa s Ha)
    as (Hp1 & Ho1 & Hi1 & He1 & Hs1).
  destruct (configure_final_registers config b fb
              (final (gpio_xec_configure config a fa) s) Hb)
    as (Hp2 & Ho2 & Hi2 & He2 & Hs2).
  destruct (configure_final_registers config b fb s Hb)
    as (Hp3 & Ho3 & Hi3 & He3 & Hs3).
  destruct (configure_final_registers config a fa
              (final (gpio_xec_configure config b fb) s) Ha)
    as (Hp4 & Ho4 & Hi4 & He4 & Hs4).
  fold sab in Hp2, Ho2, Hi2, He2, Hs2. fold sba in Hp4, Ho4, Hi4, He4, Hs4.
  split; [|split; [|split; [|split]]].
  - intros q. rewrite Hp2, Hp4, !Hp1, !Hp3.
    destruct (Z.eqb_spec q (pcr1_base config + b)) as [Hqb|Hqb];
      destruct (Z.eqb_spec q (pcr1_base config + a)) as [Hqa|Hqa];
      try (exfalso; lia);
      repeat match goal with
             | |- context [?x =? ?y] =>
                 replace (x =? y) with false by (symmetry; apply Z.eqb_neq; lia)
             end; reflexivity.
  - intros m. rewrite Ho2, Ho4, !Ho1, !Ho3.
    destruct (Z.eqb_spec m (port_num config)) as [->|]; [|reflexivity].
    rewrite Z.eqb_refl. symmetry. apply configure_out_word_commute. assumption.
  - congruence.
  - congruence.
  - congruence.
Qed.

Lemma configure_pins_commute_witness :
  @configure_accepts mec1501 port000_036_config 2 0xA00 /\
  @configure_accepts mec1501 port000_036_config 3 0x600 /\
  parout (final (@gpio_xec_configure mec1501 port000_036_config 3 0x600)
            (final (@gpio_xec_configure mec1501 port000_036_config 2 0xA00)
               hw_pending)) 0
  = parout (final (@gpio_xec_configure mec1501 port000_036_config 2 0xA00)
              (final (@gpio_xec_configure mec1501 port000_036_config 3 0x600)
                 hw_pending)) 0.
Proof.
  assert (Ha : @configure_accepts mec1501 port000_036_config 2 0xA00)
    by (split; [discriminate | left; reflexivity]).
  assert (Hb : @configure_accepts mec1501 port000_036_config 3 0x600)
    by (split; [discriminate | left; reflexivity]).
  split; [exact Ha|]. split; [exact Hb|].
  destruct (@configure_pins_commute mec1501 port000_036_config 2 3 0xA00 0x600
              hw_pending ltac:(discriminate) Ha Hb) as (_ & Ho & _).
  exact (Ho 0).
Defined.
